(** * QuickText Pro: the keystroke monitoring / expansion engine

    A shallow embedding of [KeyboardMonitor] (src/quicktext_pro.py, lines
    26-163) and the properties of its event classification, buffering,
    suppression and replay sequence.

    Modelling conventions.
    - Python [str] values are [string]s; a character is a code point below
      256 (Latin-1), on which [str.isspace] and [str.lower] are the tables
      given below.
    - [time.time()] is read once per processed press; the reading is an
      argument [current_time : Q] of [on_press] (seconds).
    - The collaborators of the engine (the pynput [Controller], [pyperclip],
      [time.sleep] and the Qt signal [expansion_triggered]) are not state of
      the monitor: every call to one of them is logged, in program order, as
      an [Action].  They are taken to be total (no call raises), so the
      [except] clause of [on_press] is never entered.
    - Python's [None] / [False] return values of [on_press] are
      [None] / [Some false] of type [option bool]; [False] is the
      "do not forward" signal. *)

From Stdlib Require Import Ascii QArith.
From stdpp Require Import base strings gmap list sorting.

(** ** Python string operations used by the engine *)

Module Py.

(** [str.isspace] on one code point below 256. *)
Definition isspace (c : ascii) : bool :=
  let n := N_of_ascii c in
  ((9 <=? n) && (n <=? 13) || (28 <=? n) && (n <=? 32)
   || (n =? 133) || (n =? 160))%N.

(** [str.lower] on one code point below 256: A-Z and the Latin-1 capitals
    (all of 192..222 but the multiplication sign 215) move up by 32. *)
Definition lower_char (c : ascii) : ascii :=
  let n := N_of_ascii c in
  if ((65 <=? n) && (n <=? 90)
      || (192 <=? n) && (n <=? 222) && negb (n =? 215))%N
  then ascii_of_N (n + 32) else c.

Fixpoint lower (s : string) : string :=
  match s with
  | "" => ""
  | String c s' => String (lower_char c) (lower s')
  end.

Fixpoint lstrip (s : string) : string :=
  match s with
  | "" => ""
  | String c s' => if isspace c then lstrip s' else s
  end.

Definition rstrip (s : string) : string :=
  String.rev (lstrip (String.rev s)).

(** [s.strip()] *)
Definition strip (s : string) : string := rstrip (lstrip s).

(** [s.split()] with no separator: the maximal runs of non-whitespace.
    [cur] is the word being read, reversed ([""] when between words). *)
Fixpoint split_go (cur : string) (s : string) : list string :=
  match s with
  | "" => match cur with "" => [] | _ => [String.rev cur] end
  | String c s' =>
      if isspace c
      then match cur with
           | "" => split_go "" s'
           | _ => String.rev cur :: split_go "" s'
           end
      else split_go (String c cur) s'
  end.

Definition split (s : string) : list string := split_go "" s.

(** [s[:-1]] *)
Fixpoint drop_last (s : string) : string :=
  match s with
  | "" => ""
  | String c "" => ""
  | String c s' => String c (drop_last s')
  end.

(** Truth value of a [str]: non-empty. *)
Definition truthy (s : string) : bool :=
  match s with "" => false | _ => true end.

End Py.

(** ** Keys *)

(** The members of pynput's [Key] enumeration that the engine names; every
    other member is [Key.other]. *)
Module Key.
Inductive t : Type :=
| space | enter | tab | backspace | ctrl | ctrl_l | ctrl_r
| other (name : string).

Definition eqb (a b : t) : bool :=
  match a, b with
  | space, space | enter, enter | tab, tab | backspace, backspace
  | ctrl, ctrl | ctrl_l, ctrl_l | ctrl_r, ctrl_r => true
  | other n, other m => String.eqb n m
  | _, _ => false
  end.
End Key.

(** What the listener hands to [on_press]: a [Key] member, or a [KeyCode]
    whose [char] attribute may be [None]. A [KeyCode] never compares equal
    to a [Key] member, and a [Key] member has no [char] attribute. *)
Inductive key_arg : Type :=
| Special (k : Key.t)
| KeyCode (char : option string).

(** [key == k] for a [Key] member [k]. *)
Definition key_is (key : key_arg) (k : Key.t) : bool :=
  match key with
  | Special k' => Key.eqb k' k
  | KeyCode _ => false
  end.

(** [key in ks] for a list of [Key] members. *)
Definition key_in (key : key_arg) (ks : list Key.t) : bool :=
  existsb (key_is key) ks.

(** [hasattr(key, 'char') and key.char]: the character when the test
    succeeds. *)
Definition key_char (key : key_arg) : option string :=
  match key with
  | KeyCode (Some c) => if Py.truthy c then Some c else None
  | _ => None
  end.

(** ** The outside world *)

(** Calls made on the collaborators, [Sleep] in milliseconds
    ([time.sleep(0.01)] is [Sleep 10]). *)
Inductive Action : Type :=
| Press (k : key_arg)                       (* keyboard_controller.press *)
| Release (k : key_arg)                     (* keyboard_controller.release *)
| Sleep (ms : nat)                          (* time.sleep *)
| ClipboardCopy (text : string)             (* pyperclip.copy *)
| Emit (keyword phrase : string).           (* expansion_triggered.emit *)

(** ** The monitor *)

Record KeyboardMonitor : Type := mkMonitor {
  is_running : bool;
  mode : string;
  shortcuts : gmap string string;
  buffer : string;
  last_key_time : Q;
  ctrl_pressed : bool;
  pending_expansion : bool
}.

Definition with_mode (v : string) (self : KeyboardMonitor) :=
  mkMonitor (is_running self) v (shortcuts self) (buffer self)
            (last_key_time self) (ctrl_pressed self) (pending_expansion self).
Definition with_shortcuts (v : gmap string string) (self : KeyboardMonitor) :=
  mkMonitor (is_running self) (mode self) v (buffer self)
            (last_key_time self) (ctrl_pressed self) (pending_expansion self).
Definition with_buffer (v : string) (self : KeyboardMonitor) :=
  mkMonitor (is_running self) (mode self) (shortcuts self) v
            (last_key_time self) (ctrl_pressed self) (pending_expansion self).
Definition with_last_key_time (v : Q) (self : KeyboardMonitor) :=
  mkMonitor (is_running self) (mode self) (shortcuts self) (buffer self)
            v (ctrl_pressed self) (pending_expansion self).
Definition with_ctrl_pressed (v : bool) (self : KeyboardMonitor) :=
  mkMonitor (is_running self) (mode self) (shortcuts self) (buffer self)
            (last_key_time self) v (pending_expansion self).
Definition with_pending_expansion (v : bool) (self : KeyboardMonitor) :=
  mkMonitor (is_running self) (mode self) (shortcuts self) (buffer self)
            (last_key_time self) (ctrl_pressed self) v.
Definition with_is_running (v : bool) (self : KeyboardMonitor) :=
  mkMonitor v (mode self) (shortcuts self) (buffer self)
            (last_key_time self) (ctrl_pressed self) (pending_expansion self).

(** [__init__], with the clock reading taken there. *)
Definition init (now : Q) : KeyboardMonitor :=
  mkMonitor false "hotkey" ∅ "" now false false.

(** ** A method body: state of [self] threaded, actions logged in order *)

Definition M (A : Type) : Type :=
  KeyboardMonitor → A * KeyboardMonitor * list Action.

Global Instance M_ret : MRet M := λ A x self, (x, self, []).
Global Instance M_bind : MBind M := λ A B f m self,
  let '(x, self1, log1) := m self in
  let '(y, self2, log2) := f x self1 in
  (y, self2, log1 ++ log2).

Definition get_self : M KeyboardMonitor := λ self, (self, self, []).
Definition update (f : KeyboardMonitor → KeyboardMonitor) : M unit :=
  λ self, (tt, f self, []).
Definition act (a : Action) : M unit := λ self, (tt, self, [a]).

(** Projections of a finished call. *)
Definition result {A} (r : A * KeyboardMonitor * list Action) : A := r.1.1.
Definition state_of {A} (r : A * KeyboardMonitor * list Action)
  : KeyboardMonitor := r.1.2.
Definition actions {A} (r : A * KeyboardMonitor * list Action)
  : list Action := r.2.

(** [for _ in range(n): body] *)
Fixpoint for_range (n : nat) (body : M unit) : M unit :=
  match n with
  | O => mret tt
  | S n' => body ;; for_range n' body
  end.

Definition press (k : key_arg) : M unit := act (Press k).
Definition release (k : key_arg) : M unit := act (Release k).
Definition sleep (ms : nat) : M unit := act (Sleep ms).
Definition copy (text : string) : M unit := act (ClipboardCopy text).
Definition emit (keyword phrase : string) : M unit := act (Emit keyword phrase).

(** The controller is given the character ['v'] as a one-character string. *)
Definition v_key : key_arg := KeyCode (Some "v").

(** ** Methods of [KeyboardMonitor] *)

(** [set_shortcuts], [set_mode], and the flag updates of [run] and [stop]. *)
Definition set_shortcuts (d : gmap string string) := with_shortcuts d.
Definition set_mode (m : string) := with_mode m.
Definition run := with_is_running true.
Definition stop := with_is_running false.

(** [check_for_expansion] (lines 110-116); it only reads [self]. *)
Definition check_for_expansion (self : KeyboardMonitor) : bool :=
  let words := Py.split (Py.strip (buffer self)) in
  match last words with
  | None => false                                    (* if not words *)
  | Some w =>
      let keyword := Py.lower w in
      bool_decide (is_Some (shortcuts self !! keyword))
  end.

(** Lines 129-147 of [expand_from_buffer]: what is done to the outside
    world once [keyword] has been found with [phrase]. *)
Definition replay (keyword phrase : string) : M unit :=
  for_range (String.length keyword)
    (press (Special Key.backspace);;
     release (Special Key.backspace);;
     sleep 10);;
  copy phrase;;
  sleep 50;;
  press (Special Key.ctrl);;
  press v_key;;
  sleep 50;;
  release v_key;;
  release (Special Key.ctrl);;
  emit keyword phrase.

(** [expand_from_buffer] (lines 118-150). The membership test and the
    subscript [self.shortcuts[keyword]] are one lookup. *)
Definition expand_from_buffer : M unit :=
  self ← get_self;
  let words := Py.split (Py.strip (buffer self)) in
  match last words with
  | None => mret tt                                  (* if not words *)
  | Some w =>
      let keyword := Py.lower w in
      match shortcuts self !! keyword with
      | Some phrase =>
          replay keyword phrase;;
          update (with_buffer "")
      | None => mret tt
      end
  end.

(** [current_time - self.last_key_time > 2] *)
Definition more_than_two_seconds (current_time last : Q) : bool :=
  negb (Qle_bool (current_time - last) 2).

(** The three assignments to [self.buffer] of the buffer-building branches. *)
Definition append_char (c : string) (self : KeyboardMonitor) :=
  with_buffer (buffer self +:+ c) self.
Definition remove_last (self : KeyboardMonitor) :=
  with_buffer (Py.drop_last (buffer self)) self.

(** Lines 62-67 of [on_press]: the idle rule and the refresh of the time of
    the last processed press. *)
Definition track_idle (current_time : Q) : M unit :=
  self ← get_self;
  (if more_than_two_seconds current_time (last_key_time self)
   then update (with_buffer "") else mret tt);;
  update (with_last_key_time current_time).

(** Lines 69-100 of [on_press]: the tracking of the control keys and the
    rule of the active mode. *)
Definition dispatch (key : key_arg) : M (option bool) :=
  if key_is key Key.ctrl_l || key_is key Key.ctrl_r
  then
    update (with_ctrl_pressed true);;
    mret None
  else
    self ← get_self;
    if String.eqb (mode self) "hotkey" then
      if ctrl_pressed self && key_is key Key.space
      then
        expand_from_buffer;;
        mret None
      else
        match key_char key with
        | Some c => update (append_char c)
        | None =>
            if key_is key Key.space then update (append_char " ")
            else if key_is key Key.backspace
                    && (0 <? String.length (buffer self))
            then update remove_last
            else mret tt
        end;;
        mret None
    else if String.eqb (mode self) "auto" then
      match key_char key with
      | Some c =>
          update (append_char c);;
          mret None
      | None =>
          if key_in key [Key.space; Key.enter; Key.tab] then
            if check_for_expansion self then
              update (with_pending_expansion true);;
              expand_from_buffer;;
              mret (Some false)
            else
              update (with_buffer "");;
              mret None
          else if key_is key Key.backspace
                  && (0 <? String.length (buffer self))
          then
            update remove_last;;
            mret None
          else mret None
      end
    else mret None.

(** [on_press] (lines 50-103): the running test, the pending-expansion
    gate (lines 56-60), then [track_idle] and [dispatch]. *)
Definition on_press (current_time : Q) (key : key_arg) : M (option bool) :=
  self ← get_self;
  if negb (is_running self) then mret None else
  if pending_expansion self && key_in key [Key.space; Key.enter; Key.tab]
  then
    update (with_pending_expansion false);;
    mret (Some false)
  else
    track_idle current_time;;
    dispatch key.

(** [on_release] (lines 105-108). *)
Definition on_release (key : key_arg) : M unit :=
  if key_is key Key.ctrl_l || key_is key Key.ctrl_r
  then update (with_ctrl_pressed false)
  else mret tt.

(** ** Runs of the listener *)

Inductive event : Type :=
| EvPress (current_time : Q) (key : key_arg)
| EvRelease (key : key_arg).

(** One callback of the listener: the value returned to it ([None] for a
    release), the monitor afterwards and the actions performed. *)
Definition handle (e : event) (self : KeyboardMonitor)
  : option bool * KeyboardMonitor * list Action :=
  match e with
  | EvPress t key => on_press t key self
  | EvRelease key =>
      let '(_, self', log) := on_release key self in (None, self', log)
  end.

(** The monitor after a sequence of callbacks. *)
Definition run_events (es : list event) (self : KeyboardMonitor)
  : KeyboardMonitor :=
  fold_left (λ s e, state_of (handle e s)) es self.

(** The returned values and the actions of a sequence of callbacks. *)
Fixpoint run_trace (es : list event) (self : KeyboardMonitor)
  : list (option bool * list Action) :=
  match es with
  | [] => []
  | e :: es' =>
      let r := handle e self in
      (result r, actions r) :: run_trace es' (state_of r)
  end.

(** Typing a string: one character press per character, all at time [t]. *)
Fixpoint type_chars (t : Q) (s : string) : list event :=
  match s with
  | "" => []
  | String c s' => EvPress t (KeyCode (Some (String c ""))) :: type_chars t s'
  end.

(** ** The shortcut store

    Table [shortcuts] of the SQLite file, as the statements of [Database]
    use it.  A row carries the five columns that the program selects; the
    two time stamps are written but never read.  [seq] is the counter that
    [AUTOINCREMENT] keeps for the table (the largest row id ever given).
    The [UNIQUE] constraint on [keyword] is checked by the statements below;
    a failed statement leaves the table as it was.  Every value bound to a
    statement is a string or an integer, so no column is ever [NULL]; usage
    counts are taken to stay within SQLite's 64-bit integers. *)

Record Row : Type := mkRow {
  row_id : nat;
  row_keyword : string;
  row_phrase : string;
  row_category : string;
  row_usage : Z
}.

(** One entry of the ['shortcuts'] list of an exported file; on import
    ['usage_count'] may be absent. *)
Record Exported : Type := mkExported {
  e_keyword : string;
  e_phrase : string;
  e_category : string;
  e_usage_count : option Z
}.

(** [ORDER BY keyword]: code point order (SQLite's BINARY collation). *)
Definition keyword_le (r1 r2 : Row) : Prop :=
  String.le (row_keyword r1) (row_keyword r2).

Global Instance keyword_le_dec : RelDecision keyword_le.
Proof. intros r1 r2. unfold keyword_le. apply _. Defined.

Module Database.

Record t : Type := mk { rows : list Row; seq : nat }.

(** The file before [init_database] has ever run. *)
Definition empty : t := mk [] 0.

(** A row with this keyword exists. *)
Definition has_keyword (k : string) (db : t) : bool :=
  bool_decide (k ∈ row_keyword <$> rows db).

(** The row id that [AUTOINCREMENT] gives to the next inserted row. *)
Definition next_rowid (db : t) : nat :=
  S (seq db `max` max_list (row_id <$> rows db)).

(** [INSERT INTO shortcuts (keyword, phrase, category, usage_count)];
    [None] is [sqlite3.IntegrityError], raised when the keyword exists. *)
Definition insert (k p c : string) (u : Z) (db : t) : option t :=
  if has_keyword k db then None
  else
    let i := next_rowid db in
    Some (mk (rows db ++ [mkRow i k p c u]) i).

(** [INSERT OR REPLACE INTO shortcuts (keyword, phrase, category,
    usage_count)]: a row with the same keyword is deleted first. *)
Definition insert_or_replace (k p c : string) (u : Z) (db : t) : t :=
  let i := next_rowid db in
  mk (filter (λ r, row_keyword r ≠ k) (rows db) ++ [mkRow i k p c u]) i.

Definition default_shortcuts : list (string * string * string) :=
  [("tady", "Thank you very much in advance.", "Thanks");
   ("tassist", "Thank you for your assistance.", "Thanks");
   ("tcontact", "Thank you very much for contacting us.", "Thanks");
   ("tcoop", "Thank you very much for your cooperation.", "Thanks");
   ("temail", "Thank you for the e-mail.", "Thanks");
   ("hello", "Hello, how can I help you today?", "Greetings");
   ("bye", "Thank you and have a great day!", "Closing")].

(** [cursor.executemany('INSERT INTO shortcuts (keyword, phrase, category)
    ...', l)]; the usage count takes its default 0. *)
Fixpoint executemany_insert (l : list (string * string * string)) (db : t)
  : option t :=
  match l with
  | [] => Some db
  | (k, p, c) :: l' => db' ← insert k p c 0 db; executemany_insert l' db'
  end.

(** [init_database] (lines 173-217); the two [CREATE TABLE IF NOT EXISTS]
    change nothing that is modelled.  [None]: the exception of a failed
    insert leaves the method. *)
Definition init_database (db : t) : option t :=
  if bool_decide (length (rows db) = 0)
  then executemany_insert default_shortcuts db
  else Some db.

(** [get_all_shortcuts] (lines 219-226). *)
Definition get_all_shortcuts (db : t) : list Row :=
  merge_sort keyword_le (rows db).

(** [add_shortcut] (lines 228-241). *)
Definition add_shortcut (keyword phrase category : string) (db : t)
  : bool * t :=
  match insert (Py.lower keyword) phrase category 0 db with
  | Some db' => (true, db')
  | None => (false, db)
  end.

(** [update_shortcut] (lines 243-252); [None] is the
    [sqlite3.IntegrityError] that the method lets through when another row
    has the new keyword. *)
Definition update_shortcut (shortcut_id : nat)
    (keyword phrase category : string) (db : t) : option t :=
  let k := Py.lower keyword in
  if bool_decide (shortcut_id ∈ row_id <$> rows db)
     && existsb (λ r, bool_decide (row_id r ≠ shortcut_id
                                   ∧ row_keyword r = k)) (rows db)
  then None
  else
    Some (mk ((λ r, if bool_decide (row_id r = shortcut_id)
                    then mkRow (row_id r) k phrase category (row_usage r)
                    else r) <$> rows db)
             (seq db)).

(** [delete_shortcut] (lines 254-260). *)
Definition delete_shortcut (shortcut_id : nat) (db : t) : t :=
  mk (filter (λ r, row_id r ≠ shortcut_id) (rows db)) (seq db).

(** [increment_usage] (lines 262-271). *)
Definition increment_usage (keyword : string) (db : t) : t :=
  mk ((λ r, if bool_decide (row_keyword r = Py.lower keyword)
            then mkRow (row_id r) (row_keyword r) (row_phrase r)
                       (row_category r) (row_usage r + 1)
            else r) <$> rows db)
     (seq db).

(** [get_categories] (lines 273-280). *)
Definition get_categories (db : t) : list string :=
  merge_sort String.le (remove_dups (row_category <$> rows db)).

(** [export_data] (lines 282-297): the ['shortcuts'] list of the file. *)
Definition export_data (db : t) : list Exported :=
  (λ s, mkExported (row_keyword s) (row_phrase s) (row_category s)
                   (Some (row_usage s))) <$> get_all_shortcuts db.

(** [import_data] (lines 299-317), given the ['shortcuts'] list of the
    file. *)
Definition import_data (data : list Exported) (db : t) : t :=
  foldl (λ db shortcut,
           insert_or_replace (e_keyword shortcut) (e_phrase shortcut)
             (e_category shortcut) (default 0%Z (e_usage_count shortcut)) db)
        db data.

End Database.


(** ** The window's use of the store and of the monitor *)

Module MainWindow.

(** [self.db] and [self.monitor]. *)
Record t : Type := mk { db : Database.t; monitor : KeyboardMonitor }.

(** [{s[1]: s[2] for s in shortcuts}]: a later row overrides an earlier
    one. *)
Definition shortcuts_dict (shortcuts : list Row) : gmap string string :=
  foldl (λ d s, <[row_keyword s := row_phrase s]> d) ∅ shortcuts.

(** [update_monitor_shortcuts] (lines 660-664). *)
Definition update_monitor_shortcuts (w : t) : t :=
  mk (db w)
     (set_shortcuts (shortcuts_dict (Database.get_all_shortcuts (db w)))
        (monitor w)).

(** [load_shortcuts] (lines 639-658): besides filling the table widget and
    the category filter, it refreshes the monitor. *)
Definition load_shortcuts (w : t) : t := update_monitor_shortcuts w.


(** What [AddShortcutDialog] hands back: the result of [exec_] and the
    texts of its three inputs. *)
Record dialog : Type := mkDialog {
  accepted : bool;
  keyword_text : string;
  phrase_text : string;
  category_text : string
}.

(** [AddShortcutDialog.get_data] (lines 382-388). *)
Definition get_data (d : dialog) : string * string * string :=
  (Py.strip (keyword_text d), Py.strip (phrase_text d),
   Py.strip (category_text d)).

Inductive message : Type :=
| Information (text : string)               (* QMessageBox.information *)
| Warning (text : string).                  (* QMessageBox.warning *)

(** [add_shortcut] (lines 710-720). *)
Definition add_shortcut (d : dialog) (w : t) : t * option message :=
  if accepted d then
    let '(keyword, phrase, category) := get_data d in
    if Py.truthy keyword && Py.truthy phrase then
      match Database.add_shortcut keyword phrase category (db w) with
      | (true, db') =>
          (load_shortcuts (mk db' (monitor w)),
           Some (Information "Shortcut added successfully!"))
      | (false, _) => (w, Some (Warning "Keyword already exists!"))
      end
    else (w, None)
  else (w, None).

End MainWindow.

(** ** Vocabulary for the store *)

(** What the constraints of the table promise: keywords are unique, row
    ids are unique, and no row id exceeds the [AUTOINCREMENT] counter. *)
Definition store_ok (db : Database.t) : Prop :=
  NoDup (row_keyword <$> Database.rows db)
  ∧ NoDup (row_id <$> Database.rows db)
  ∧ Forall (λ r, row_id r ≤ Database.seq db) (Database.rows db).

(** Every stored keyword is lower-case. *)
Definition keys_lower (db : Database.t) : Prop :=
  Forall (λ r, Py.lower (row_keyword r) = row_keyword r) (Database.rows db).

(** The dictionary that the window hands to the monitor. *)
Definition snapshot (db : Database.t) : gmap string string :=
  MainWindow.shortcuts_dict (Database.get_all_shortcuts db).

(** A row without its id, as [export_data] writes it. *)
Definition row_content (r : Row) : Exported :=
  mkExported (row_keyword r) (row_phrase r) (row_category r)
             (Some (row_usage r)).

(** The rows that [executemany] makes of a list of defaults, the first
    with row id [i]. *)
Fixpoint seeded (i : nat) (l : list (string * string * string)) : list Row :=
  match l with
  | [] => []
  | (k, p, c) :: l' => mkRow i k p c 0 :: seeded (S i) l'
  end.

(** A row id that was given out before and is no longer in use. *)
Definition retired (i : nat) (db : Database.t) : Prop :=
  i ≤ Database.seq db ∧ i ∉ row_id <$> Database.rows db.

(** An imported entry with the default of [usage_count] filled in. *)
Definition with_default_usage (s : Exported) : Exported :=
  mkExported (e_keyword s) (e_phrase s) (e_category s)
             (Some (default 0%Z (e_usage_count s))).

(** The order of an exported list: by keyword. *)
Definition exported_le (e1 e2 : Exported) : Prop :=
  String.le (e_keyword e1) (e_keyword e2).

(** The calls that change the store.  A call that raises changes nothing:
    its transaction is never committed. *)
Inductive store_call : Type :=
| CallInit
| CallAdd (keyword phrase category : string)
| CallUpdate (shortcut_id : nat) (keyword phrase category : string)
| CallDelete (shortcut_id : nat)
| CallIncrement (keyword : string)
| CallImport (data : list Exported).

Definition store_after (db : Database.t) (c : store_call) : Database.t :=
  match c with
  | CallInit => default db (Database.init_database db)
  | CallAdd k p cat => (Database.add_shortcut k p cat db).2
  | CallUpdate i k p cat => default db (Database.update_shortcut i k p cat db)
  | CallDelete i => Database.delete_shortcut i db
  | CallIncrement k => Database.increment_usage k db
  | CallImport data => Database.import_data data db
  end.

(** ** Vocabulary for the control flag *)

(** One of the two control keys that the monitor tracks. *)
Definition is_ctrl_key (key : key_arg) : bool :=
  key_is key Key.ctrl_l || key_is key Key.ctrl_r.

(** What an event is meant to do to the control flag. *)
Definition ctrl_after (flag : bool) (e : event) : bool :=
  match e with
  | EvPress _ key => if is_ctrl_key key then true else flag
  | EvRelease key => if is_ctrl_key key then false else flag
  end.

(** The actions of one performed expansion. *)
Definition replay_actions (keyword phrase : string) : list Action :=
  mjoin (replicate (String.length keyword)
           [Press (Special Key.backspace); Release (Special Key.backspace);
            Sleep 10])
  ++ [ClipboardCopy phrase; Sleep 50;
      Press (Special Key.ctrl); Press (KeyCode (Some "v")); Sleep 50;
      Release (KeyCode (Some "v")); Release (Special Key.ctrl);
      Emit keyword phrase].

(** ** A sample monitor *)

Definition tady_phrase : string := "Thank you very much in advance.".
Definition demo_shortcuts : gmap string string :=
  {[ "tady" := tady_phrase; "brb" := "be right back" ]}.

Definition demo (m buf : string) (pending : bool) : KeyboardMonitor :=
  mkMonitor true m demo_shortcuts buf 0 false pending.

(** ** Vocabulary of the specification *)

(** A delimiter press: Space, Enter or Tab. *)
Definition is_delimiter (key : key_arg) : bool :=
  key_in key [Key.space; Key.enter; Key.tab].

(** The token that both [check_for_expansion] and [expand_from_buffer]
    read: [buf.strip().split()[-1]], [None] when the list is empty. *)
Definition last_token (buf : string) : option string :=
  last (Py.split (Py.strip buf)).

(** The candidate keyword of a buffer: that token, lower-cased. *)
Definition candidate (buf : string) : option string :=
  Py.lower <$> last_token buf.

(** The delimiter is not forwarded. *)
Definition suppressed (r : option bool) : Prop := r = Some false.
Definition forwarded (r : option bool) : Prop := r = None.

(** [n] synthetic backspace press/release pairs, each followed by its
    10 ms pause. *)
Definition erase_block (n : nat) : list Action :=
  mjoin (replicate n [Press (Special Key.backspace);
                      Release (Special Key.backspace); Sleep 10]).

(** Clipboard write with its settle delay, then the paste chord. *)
Definition paste_block (phrase : string) : list Action :=
  [ClipboardCopy phrase; Sleep 50;
   Press (Special Key.ctrl); Press v_key; Sleep 50;
   Release v_key; Release (Special Key.ctrl)].

Definition is_backspace_press (a : Action) : bool :=
  match a with Press (Special Key.backspace) => true | _ => false end.
Definition is_backspace_release (a : Action) : bool :=
  match a with Release (Special Key.backspace) => true | _ => false end.
Definition is_clipboard_write (a : Action) : bool :=
  match a with ClipboardCopy _ => true | _ => false end.
Definition is_notification (a : Action) : bool :=
  match a with Emit _ _ => true | _ => false end.



(** The last whitespace-delimited token, in the words of the
    specification: [tok] is a non-empty run of non-whitespace characters of
    [buf], followed by whitespace only, and preceded by nothing or by a
    whitespace character. *)
Fixpoint all_space (s : string) : bool :=
  match s with
  | "" => true
  | String c s' => Py.isspace c && all_space s'
  end.

Fixpoint no_space (s : string) : bool :=
  match s with
  | "" => true
  | String c s' => negb (Py.isspace c) && no_space s'
  end.

Definition ends_with_space (s : string) : Prop :=
  ∃ s' c, s = s' +:+ String c "" ∧ Py.isspace c = true.

Definition is_last_token (buf tok : string) : Prop :=
  ∃ pre post,
    buf = pre +:+ tok +:+ post
    ∧ (pre = "" ∨ ends_with_space pre)
    ∧ tok ≠ ""
    ∧ no_space tok = true
    ∧ all_space post = true.

(** The word in progress, closed at a whitespace or at the end. *)
Definition flush (cur : string) : list string :=
  match cur with "" => [] | _ => [String.rev cur] end.

(** The monitor as [track_idle] leaves it. *)
Definition after_idle (t : Q) (self : KeyboardMonitor) : KeyboardMonitor :=
  with_last_key_time t
    (if more_than_two_seconds t (last_key_time self)
     then with_buffer "" self else self).

(** A delimiter press event. *)
Definition is_delimiter_press (e : event) : bool :=
  match e with
  | EvPress _ key => is_delimiter key
  | EvRelease _ => false
  end.

(** What a press that is no delimiter is meant to do to the buffer: a
    character is appended, Backspace removes the last character, any other
    key leaves it alone. *)
Definition edit (buf : string) (key : key_arg) : string :=
  match key_char key with
  | Some c => buf +:+ c
  | None => if key_is key Key.backspace then Py.drop_last buf else buf
  end.

(** The characters typed, one after the other. *)
Definition typed_text (cs : list string) : string :=
  foldr (λ c acc, c +:+ acc) "" cs.

(** Presses with their clock readings. *)
Definition presses (ps : list (Q * key_arg)) : list event :=
  (λ p, EvPress p.1 p.2) <$> ps.

(** Every press comes no more than 2 seconds after the one before;
    [prev] is the time of the press before the first. *)
Fixpoint gaps_from (prev : Q) (ps : list (Q * key_arg)) : Prop :=
  match ps with
  | [] => True
  | p :: ps' => (p.1 - prev <= 2)%Q ∧ gaps_from p.1 ps'
  end.

Definition gaps_within (ps : list (Q * key_arg)) : Prop :=
  match ps with
  | [] => True
  | p :: ps' => gaps_from p.1 ps'
  end.

(** Release events between two presses. *)
Definition releases (ks : list key_arg) : list event := EvRelease <$> ks.

(** ** Concrete checks of the embedding *)

Example split_please_tady :
  Py.split (Py.strip "  please   TaDy ") = ["please"; "TaDy"].
Proof. reflexivity. Qed.

Example split_blank : Py.split (Py.strip "   ") = [].
Proof. reflexivity. Qed.

Example lower_TaDy : Py.lower "TaDy-9" = "tady-9".
Proof. reflexivity. Qed.

Example split_tab_newline :
  Py.split (Py.strip (String "009" "ab" +:+ String "010" "Cd" +:+ " "))
  = ["ab"; "Cd"].
Proof. reflexivity. Qed.

Example hotkey_ctrl_space_run :
  run_trace
    (type_chars 1 "brb"
       ++ [EvPress 1 (Special Key.enter); EvPress 2 (Special Key.ctrl_l);
           EvPress 2 (Special Key.space); EvRelease (Special Key.ctrl_l)])
    (demo "hotkey" "" false)
  = [(None, []); (None, []); (None, []); (None, []); (None, []);
     (None,
      erase_block 3 ++ paste_block "be right back"
        ++ [Emit "brb" "be right back"]);
     (None, [])].
Proof. vm_compute. reflexivity. Qed.

Example check_please_tady :
  check_for_expansion (demo "auto" "please tady" false) = true.
Proof. vm_compute. reflexivity. Qed.

Example auto_space_expands :
  on_press 1 (Special Key.space) (demo "auto" "please tady" false)
  = (Some false,
     mkMonitor true "auto" demo_shortcuts "" 1 false true,
     [Press (Special Key.backspace); Release (Special Key.backspace); Sleep 10;
      Press (Special Key.backspace); Release (Special Key.backspace); Sleep 10;
      Press (Special Key.backspace); Release (Special Key.backspace); Sleep 10;
      Press (Special Key.backspace); Release (Special Key.backspace); Sleep 10;
      ClipboardCopy tady_phrase; Sleep 50;
      Press (Special Key.ctrl); Press v_key; Sleep 50;
      Release v_key; Release (Special Key.ctrl);
      Emit "tady" tady_phrase]).
Proof. vm_compute. reflexivity. Qed.

(** ** Basic equations *)

Ltac unfold_M :=
  unfold mbind, M_bind, mret, M_ret, get_self, update, act,
    press, release, sleep, copy, emit in *.

Lemma more_than_two_seconds_true t last :
  more_than_two_seconds t last = true ↔ (2 < t - last)%Q.
Proof.
  unfold more_than_two_seconds. rewrite negb_true_iff.
  rewrite <- not_true_iff_false, Qle_bool_iff. split.
  - apply Qnot_le_lt.
  - apply Qlt_not_le.
Qed.

Lemma more_than_two_seconds_false t last :
  more_than_two_seconds t last = false ↔ (t - last <= 2)%Q.
Proof.
  unfold more_than_two_seconds. rewrite negb_false_iff. apply Qle_bool_iff.
Qed.

Lemma track_idle_eq t self : track_idle t self = (tt, after_idle t self, []).
Proof.
  unfold track_idle, after_idle. unfold_M.
  destruct (more_than_two_seconds t (last_key_time self)); reflexivity.
Qed.

Lemma on_press_stopped t key self :
  is_running self = false → on_press t key self = (None, self, []).
Proof. intros H. unfold on_press. unfold_M. rewrite H. reflexivity. Qed.

Lemma on_press_gate t key self :
  is_running self = true →
  pending_expansion self = true →
  is_delimiter key = true →
  on_press t key self = (Some false, with_pending_expansion false self, []).
Proof.
  intros Hr Hp Hd. unfold on_press. unfold_M.
  unfold is_delimiter in Hd. rewrite Hr, Hp, Hd. reflexivity.
Qed.

Lemma on_press_processed t key self :
  is_running self = true →
  pending_expansion self && is_delimiter key = false →
  on_press t key self = dispatch key (after_idle t self).
Proof.
  intros Hr Hg. unfold on_press. unfold is_delimiter in Hg.
  change (on_press t key self) with
    ((get_self ≫= λ self0,
        if negb (is_running self0) then mret None else
        if pending_expansion self0
           && key_in key [Key.space; Key.enter; Key.tab]
        then update (with_pending_expansion false);; mret (Some false)
        else track_idle t;; dispatch key) self).
  unfold mbind at 1. unfold M_bind at 1. unfold get_self at 1.
  rewrite Hr, Hg. cbn [negb].
  unfold mbind, M_bind. rewrite track_idle_eq.
  destruct (dispatch key (after_idle t self)) as [[r s] l]. reflexivity.
Qed.

Lemma for_range_erase n self :
  for_range n
    (press (Special Key.backspace);;
     release (Special Key.backspace);;
     sleep 10) self
  = (tt, self, erase_block n).
Proof.
  revert self. induction n as [|n IH]; intros self; [reflexivity|].
  cbn [for_range]. unfold_M. cbn. rewrite IH. reflexivity.
Qed.

Lemma replay_eq keyword phrase self :
  replay keyword phrase self
  = (tt, self,
     erase_block (String.length keyword) ++ paste_block phrase
       ++ [Emit keyword phrase]).
Proof.
  unfold replay. unfold mbind at 1. unfold M_bind at 1.
  rewrite for_range_erase. unfold_M. cbn. reflexivity.
Qed.

(** The two outcomes of [check_for_expansion] and of [expand_from_buffer],
    in terms of the candidate keyword. *)

Lemma check_for_expansion_true self :
  check_for_expansion self = true ↔
  ∃ keyword phrase,
    candidate (buffer self) = Some keyword
    ∧ shortcuts self !! keyword = Some phrase.
Proof.
  unfold check_for_expansion, candidate, last_token.
  destruct (last (Py.split (Py.strip (buffer self)))) as [w|]; cbn.
  - rewrite bool_decide_eq_true. split.
    + intros [phrase Hp]. eauto.
    + intros (keyword & phrase & [= <-] & Hp). eauto.
  - split; [discriminate|]. intros (? & ? & [=] & _).
Qed.

Lemma check_for_expansion_false self :
  check_for_expansion self = false ↔
  ∀ keyword, candidate (buffer self) = Some keyword →
             shortcuts self !! keyword = None.
Proof.
  rewrite <- not_true_iff_false, check_for_expansion_true. split.
  - intros Hn keyword Hc.
    destruct (shortcuts self !! keyword) as [phrase|] eqn:E; [|reflexivity].
    exfalso. eauto.
  - intros Hn (keyword & phrase & Hc & Hp). rewrite (Hn _ Hc) in Hp.
    discriminate.
Qed.

Lemma expand_from_buffer_match self keyword phrase :
  candidate (buffer self) = Some keyword →
  shortcuts self !! keyword = Some phrase →
  expand_from_buffer self
  = (tt, with_buffer "" self,
     erase_block (String.length keyword) ++ paste_block phrase
       ++ [Emit keyword phrase]).
Proof.
  unfold candidate, last_token, expand_from_buffer. intros Hc Hp.
  unfold mbind at 1. unfold M_bind at 1. unfold get_self at 1.
  destruct (last (Py.split (Py.strip (buffer self)))) as [w|];
    cbn in Hc; [|discriminate].
  injection Hc as Hc. rewrite Hc, Hp.
  unfold mbind, M_bind. rewrite replay_eq. unfold update.
  rewrite app_nil_r. reflexivity.
Qed.

Lemma expand_from_buffer_no_match self :
  check_for_expansion self = false →
  expand_from_buffer self = (tt, self, []).
Proof.
  unfold check_for_expansion, expand_from_buffer. intros Hc.
  unfold mbind at 1. unfold M_bind at 1. unfold get_self at 1.
  destruct (last (Py.split (Py.strip (buffer self)))) as [w|];
    [|reflexivity].
  apply bool_decide_eq_false in Hc.
  destruct (shortcuts self !! Py.lower w) as [phrase|] eqn:E;
    [|reflexivity].
  exfalso. apply Hc. eauto.
Qed.

(** ** Facts about the string operations *)

Section StringFacts.

Local Ltac by_cases c := destruct c as [[] [] [] [] [] [] [] []]; reflexivity.

Lemma lower_char_idem c : Py.lower_char (Py.lower_char c) = Py.lower_char c.
Proof. by_cases c. Qed.

Lemma isspace_lower_char c : Py.isspace (Py.lower_char c) = Py.isspace c.
Proof. by_cases c. Qed.












Lemma rev_app_length s1 s2 :
  String.length (String.rev_app s1 s2)
  = String.length s1 + String.length s2.
Proof.
  revert s2. induction s1 as [|c s1 IH]; intros s2; cbn; [reflexivity|].
  rewrite IH. cbn. lia.
Qed.




End StringFacts.

(** ** Appending to and shortening the buffer *)

Lemma app_String c s1 s2 : String c s1 +:+ s2 = String c (s1 +:+ s2).
Proof. reflexivity. Qed.

Lemma app_empty_l s : "" +:+ s = s.
Proof. reflexivity. Qed.

Lemma app_empty_r s : s +:+ "" = s.
Proof.
  induction s as [|c s IH]; [reflexivity|]. rewrite app_String, IH.
  reflexivity.
Qed.

Lemma app_length s1 s2 :
  String.length (s1 +:+ s2) = String.length s1 + String.length s2.
Proof.
  induction s1 as [|c s1 IH]; [reflexivity|].
  rewrite app_String. cbn. rewrite IH. reflexivity.
Qed.

Lemma app_assoc_string s1 s2 s3 : (s1 +:+ s2) +:+ s3 = s1 +:+ s2 +:+ s3.
Proof.
  induction s1 as [|c s1 IH]; [reflexivity|].
  rewrite !app_String, IH. reflexivity.
Qed.

(** [s[:-1]] removes exactly the last character. *)
Lemma drop_last_snoc s c : Py.drop_last (s +:+ String c "") = s.
Proof.
  induction s as [|a s IH]; [reflexivity|].
  rewrite app_String. cbn [Py.drop_last]. rewrite IH.
  destruct s; reflexivity.
Qed.

Lemma app_space_neq s : s +:+ " " ≠ s.
Proof.
  intros E. apply (f_equal String.length) in E.
  rewrite app_length in E. cbn in E. lia.
Qed.

(** ** The last token, in the words of the specification *)

Section Tokens.

Lemma rev_app_app s1 s2 : String.rev_app s1 s2 = String.rev s1 +:+ s2.
Proof.
  unfold String.rev. revert s2.
  induction s1 as [|c s1 IH]; intros s2; [reflexivity|].
  cbn [String.rev_app]. rewrite (IH (String c s2)), (IH (String c "")).
  rewrite app_assoc_string. reflexivity.
Qed.

Lemma rev_String c s : String.rev (String c s) = String.rev s +:+ String c "".
Proof. unfold String.rev at 1. cbn [String.rev_app]. apply rev_app_app. Qed.

Lemma rev_app_distr s1 s2 :
  String.rev (s1 +:+ s2) = String.rev s2 +:+ String.rev s1.
Proof.
  induction s1 as [|c s1 IH].
  - rewrite app_empty_l. symmetry. apply app_empty_r.
  - rewrite app_String, !rev_String, IH. apply app_assoc_string.
Qed.

Lemma rev_involutive s : String.rev (String.rev s) = s.
Proof.
  induction s as [|c s IH]; [reflexivity|].
  rewrite rev_String, rev_app_distr, IH. reflexivity.
Qed.

Lemma all_space_app s1 s2 :
  all_space (s1 +:+ s2) = all_space s1 && all_space s2.
Proof.
  induction s1 as [|c s1 IH]; [reflexivity|].
  rewrite app_String. cbn [all_space]. rewrite IH, andb_assoc. reflexivity.
Qed.

Lemma no_space_app s1 s2 :
  no_space (s1 +:+ s2) = no_space s1 && no_space s2.
Proof.
  induction s1 as [|c s1 IH]; [reflexivity|].
  rewrite app_String. cbn [no_space]. rewrite IH, andb_assoc. reflexivity.
Qed.

Lemma all_space_rev s : all_space (String.rev s) = all_space s.
Proof.
  induction s as [|c s IH]; [reflexivity|].
  rewrite rev_String, all_space_app, IH. cbn.
  rewrite andb_true_r. apply andb_comm.
Qed.

Lemma no_space_rev s : no_space (String.rev s) = no_space s.
Proof.
  induction s as [|c s IH]; [reflexivity|].
  rewrite rev_String, no_space_app, IH. cbn.
  rewrite andb_true_r. apply andb_comm.
Qed.

Lemma rev_empty s : String.rev s = "" → s = "".
Proof.
  intros E. apply (f_equal String.length) in E.
  unfold String.rev in E. rewrite rev_app_length in E.
  destruct s; [reflexivity|cbn in E; lia].
Qed.

Lemma split_go_flush cur : Py.split_go cur "" = flush cur.
Proof. destruct cur; reflexivity. Qed.

Lemma split_go_space cur c s :
  Py.isspace c = true →
  Py.split_go cur (String c s) = flush cur ++ Py.split_go "" s.
Proof. intros H. cbn. rewrite H. destruct cur; reflexivity. Qed.

Lemma split_go_char cur c s :
  Py.isspace c = false →
  Py.split_go cur (String c s) = Py.split_go (String c cur) s.
Proof. intros H. cbn. rewrite H. reflexivity. Qed.

Lemma split_go_all_space post : ∀ cur,
  all_space post = true → Py.split_go cur post = flush cur.
Proof.
  induction post as [|c post IH]; intros cur H; [apply split_go_flush|].
  cbn [all_space] in H. apply andb_true_iff in H as [Hc Hp].
  rewrite (split_go_space _ _ _ Hc), (IH "" Hp). apply app_nil_r.
Qed.

Lemma split_go_app_space s post : ∀ cur,
  all_space post = true →
  Py.split_go cur (s +:+ post) = Py.split_go cur s.
Proof.
  induction s as [|c s IH]; intros cur H.
  - rewrite app_empty_l, split_go_flush. apply split_go_all_space, H.
  - rewrite app_String. destruct (Py.isspace c) eqn:Hc.
    + rewrite !(split_go_space _ _ _ Hc), (IH "" H). reflexivity.
    + rewrite !(split_go_char _ _ _ Hc). apply IH, H.
Qed.

Lemma split_go_word tok : ∀ cur rest,
  no_space tok = true →
  Py.split_go cur (tok +:+ rest) = Py.split_go (String.rev_app tok cur) rest.
Proof.
  induction tok as [|c tok IH]; intros cur rest H; [reflexivity|].
  cbn [no_space] in H. apply andb_true_iff in H as [Hc Ht].
  apply negb_true_iff in Hc.
  rewrite app_String, (split_go_char _ _ _ Hc). apply IH, Ht.
Qed.

Lemma split_go_prefix pre c : ∀ cur,
  Py.isspace c = true →
  ∃ l, ∀ rest,
    Py.split_go cur (pre +:+ String c rest) = l ++ Py.split_go "" rest.
Proof.
  intros cur Hc. revert cur.
  induction pre as [|a pre IH]; intros cur.
  - exists (flush cur). intros rest. rewrite app_empty_l.
    apply split_go_space, Hc.
  - destruct (Py.isspace a) eqn:Ha.
    + destruct (IH "") as [l Hl]. exists (flush cur ++ l). intros rest.
      rewrite app_String, (split_go_space _ _ _ Ha), Hl.
      apply app_assoc.
    + destruct (IH (String a cur)) as [l Hl]. exists l. intros rest.
      rewrite app_String, (split_go_char _ _ _ Ha). apply Hl.
Qed.

Lemma lstrip_decomp s :
  ∃ sp, s = sp +:+ Py.lstrip s ∧ all_space sp = true.
Proof.
  induction s as [|c s (sp & E & H)]; [exists ""; auto|].
  cbn [Py.lstrip]. destruct (Py.isspace c) eqn:Hc.
  - exists (String c sp). rewrite app_String, <- E. cbn. rewrite Hc, H. auto.
  - exists "". auto.
Qed.

Lemma rstrip_decomp s :
  ∃ sp, s = Py.rstrip s +:+ sp ∧ all_space sp = true.
Proof.
  destruct (lstrip_decomp (String.rev s)) as (sp & E & H).
  exists (String.rev sp). split; [|rewrite all_space_rev; exact H].
  apply (f_equal String.rev) in E.
  rewrite rev_involutive, rev_app_distr in E. exact E.
Qed.

Lemma split_lstrip s : Py.split (Py.lstrip s) = Py.split s.
Proof.
  unfold Py.split. induction s as [|c s IH]; [reflexivity|].
  cbn [Py.lstrip]. destruct (Py.isspace c) eqn:Hc; [|reflexivity].
  rewrite (split_go_space _ _ _ Hc). exact IH.
Qed.

Lemma split_rstrip s : Py.split (Py.rstrip s) = Py.split s.
Proof.
  destruct (rstrip_decomp s) as (sp & E & H). unfold Py.split.
  rewrite E at 2. symmetry. apply split_go_app_space, H.
Qed.

(** [strip] before [split] changes nothing. *)
Lemma split_strip s : Py.split (Py.strip s) = Py.split s.
Proof. unfold Py.strip. rewrite split_rstrip. apply split_lstrip. Qed.

Lemma last_token_split buf : last_token buf = last (Py.split buf).
Proof. unfold last_token. rewrite split_strip. reflexivity. Qed.

Lemma split_go_nil s : ∀ cur,
  Py.split_go cur s = [] → cur = "" ∧ all_space s = true.
Proof.
  induction s as [|c s IH]; intros cur H.
  - rewrite split_go_flush in H. destruct cur; [auto|discriminate].
  - destruct (Py.isspace c) eqn:Hc.
    + rewrite (split_go_space _ _ _ Hc) in H.
      apply app_eq_nil in H as [H1 H2].
      destruct (IH "" H2) as [_ Hs]. cbn [all_space]. rewrite Hc, Hs.
      destruct cur; [auto|discriminate].
    + rewrite (split_go_char _ _ _ Hc) in H.
      destruct (IH _ H) as [? _]. discriminate.
Qed.

Lemma flush_last cur tok :
  last (flush cur) = Some tok → cur ≠ "" ∧ tok = String.rev cur.
Proof.
  destruct cur; cbn; [discriminate|]. intros [= <-]. split; congruence.
Qed.

Lemma ends_with_space_snoc s c :
  Py.isspace c = true → ends_with_space (s +:+ String c "").
Proof. intros H. exists s, c. auto. Qed.

Lemma ends_with_space_app s pre :
  ends_with_space pre → ends_with_space (s +:+ pre).
Proof.
  intros (p & d & -> & Hd). exists (s +:+ p), d.
  rewrite app_assoc_string. auto.
Qed.

(** From the code to the words: what [split_go] returns last is the last
    token of what it has read. *)
Lemma split_go_last s : ∀ cur tok,
  no_space cur = true →
  last (Py.split_go cur s) = Some tok →
  is_last_token (String.rev cur +:+ s) tok.
Proof.
  induction s as [|c s IH]; intros cur tok Hcur H.
  - rewrite split_go_flush in H. apply flush_last in H as [Hne ->].
    exists "", "". rewrite app_empty_l, !app_empty_r.
    repeat split; auto.
    + intros E. apply rev_empty in E. contradiction.
    + rewrite no_space_rev. exact Hcur.
  - destruct (Py.isspace c) eqn:Hc.
    + rewrite (split_go_space _ _ _ Hc), last_app in H.
      destruct (last (Py.split_go "" s)) as [tok'|] eqn:Hl.
      * injection H as ->.
        destruct (IH "" tok eq_refl Hl) as (pre & post & E & Hpre & Hrest).
        change (String.rev "" +:+ s) with s in E.
        exists (String.rev cur +:+ String c pre), post.
        split; [rewrite E, app_assoc_string, app_String; reflexivity|].
        split; [|exact Hrest]. right.
        destruct Hpre as [->|Hpre].
        -- apply ends_with_space_snoc, Hc.
        -- apply ends_with_space_app.
           apply (ends_with_space_app (String c "")), Hpre.
      * apply last_None in Hl. apply split_go_nil in Hl as [_ Hs].
        apply flush_last in H as [Hne ->].
        exists "", (String c s). rewrite app_empty_l.
        repeat split; auto.
        -- intros E. apply rev_empty in E. contradiction.
        -- rewrite no_space_rev. exact Hcur.
        -- cbn [all_space]. rewrite Hc, Hs. reflexivity.
    + rewrite (split_go_char _ _ _ Hc) in H.
      assert (Hcur' : no_space (String c cur) = true)
        by (cbn [no_space]; rewrite Hc, Hcur; reflexivity).
      pose proof (IH _ _ Hcur' H) as Ht.
      rewrite rev_String, app_assoc_string in Ht. exact Ht.
Qed.

(** From the words to the code. *)
Lemma split_word_then_space tok post :
  tok ≠ "" → no_space tok = true → all_space post = true →
  Py.split_go "" (tok +:+ post) = [tok].
Proof.
  intros Hne Hn Hs.
  rewrite (split_go_word _ _ _ Hn), (split_go_all_space _ _ Hs).
  change (String.rev_app tok "") with (String.rev tok).
  unfold flush. destruct (String.rev tok) eqn:E.
  - apply rev_empty in E. contradiction.
  - rewrite <- E, rev_involutive. reflexivity.
Qed.

Lemma is_last_token_split buf tok :
  is_last_token buf tok → last (Py.split buf) = Some tok.
Proof.
  intros (pre & post & -> & Hpre & Hne & Hn & Hs). unfold Py.split.
  destruct Hpre as [->|(p & c & -> & Hc)].
  - rewrite app_empty_l, (split_word_then_space _ _ Hne Hn Hs).
    reflexivity.
  - rewrite app_assoc_string, app_String, app_empty_l.
    destruct (split_go_prefix p c "" Hc) as [l Hl].
    rewrite Hl, (split_word_then_space _ _ Hne Hn Hs). apply last_snoc.
Qed.

(** The token that the engine reads is the last whitespace-delimited token
    of the buffer, and there is one unless the buffer is blank. *)
Lemma last_token_spec buf tok :
  last_token buf = Some tok ↔ is_last_token buf tok.
Proof.
  rewrite last_token_split. split.
  - intros H. apply (split_go_last buf "" tok eq_refl H).
  - apply is_last_token_split.
Qed.

Lemma last_token_none buf : last_token buf = None ↔ all_space buf = true.
Proof.
  rewrite last_token_split, last_None. split.
  - intros H. apply (split_go_nil buf "" H).
  - intros H. apply (split_go_all_space buf "" H).
Qed.

Lemma blank_buffer_no_token buf tok :
  all_space buf = true → ¬ is_last_token buf tok.
Proof.
  intros Hb Ht. apply last_token_spec in Ht. apply last_token_none in Hb.
  congruence.
Qed.

Lemma candidate_spec buf keyword :
  candidate buf = Some keyword ↔
  ∃ tok, is_last_token buf tok ∧ keyword = Py.lower tok.
Proof.
  unfold candidate. split.
  - destruct (last_token buf) as [tok|] eqn:E; cbn; [|discriminate].
    intros [= <-]. exists tok. split; [apply last_token_spec, E|reflexivity].
  - intros (tok & Ht & ->). apply last_token_spec in Ht. rewrite Ht.
    reflexivity.
Qed.

End Tokens.

(** ** What [track_idle] leaves alone *)

Section AfterIdle.
Variables (t : Q) (self : KeyboardMonitor).

Local Ltac by_idle :=
  unfold after_idle;
  destruct (more_than_two_seconds t (last_key_time self)); reflexivity.

Lemma after_idle_is_running :
  is_running (after_idle t self) = is_running self.
Proof. by_idle. Qed.

Lemma after_idle_mode : mode (after_idle t self) = mode self.
Proof. by_idle. Qed.

Lemma after_idle_shortcuts : shortcuts (after_idle t self) = shortcuts self.
Proof. by_idle. Qed.

Lemma after_idle_ctrl_pressed :
  ctrl_pressed (after_idle t self) = ctrl_pressed self.
Proof. by_idle. Qed.

Lemma after_idle_pending_expansion :
  pending_expansion (after_idle t self) = pending_expansion self.
Proof. by_idle. Qed.

Lemma after_idle_last_key_time : last_key_time (after_idle t self) = t.
Proof. by_idle. Qed.

Lemma after_idle_buffer :
  buffer (after_idle t self)
  = if more_than_two_seconds t (last_key_time self) then ""
    else buffer self.
Proof. by_idle. Qed.

Lemma after_idle_within :
  (t - last_key_time self <= 2)%Q →
  after_idle t self = with_last_key_time t self.
Proof.
  intros H. apply more_than_two_seconds_false in H.
  unfold after_idle. rewrite H. reflexivity.
Qed.

Lemma after_idle_beyond :
  (2 < t - last_key_time self)%Q →
  after_idle t self = with_last_key_time t (with_buffer "" self).
Proof.
  intros H. apply more_than_two_seconds_true in H.
  unfold after_idle. rewrite H. reflexivity.
Qed.

End AfterIdle.

Create Rewrite HintDb monitor.
#[export] Hint Rewrite after_idle_is_running after_idle_mode
  after_idle_shortcuts after_idle_ctrl_pressed after_idle_pending_expansion
  after_idle_last_key_time : monitor.

(** ** Equations of [dispatch] on delimiters *)

Lemma is_delimiter_inv key :
  is_delimiter key = true →
  key = Special Key.space ∨ key = Special Key.enter ∨ key = Special Key.tab.
Proof.
  destruct key as [[]|]; cbn; try discriminate; auto.
Qed.

Lemma dispatch_auto_delimiter key self :
  mode self = "auto" →
  is_delimiter key = true →
  dispatch key self
  = if check_for_expansion self
    then (Some false,
          state_of (expand_from_buffer (with_pending_expansion true self)),
          actions (expand_from_buffer (with_pending_expansion true self)))
    else (None, with_buffer "" self, []).
Proof.
  intros Hm Hd. unfold dispatch.
  apply is_delimiter_inv in Hd as [->|[->| ->]]; cbn [key_is Key.eqb orb];
    unfold mbind at 1; unfold M_bind at 1; unfold get_self at 1;
    rewrite Hm; cbn [String.eqb Ascii.eqb Bool.eqb key_char key_in existsb
                       key_is Key.eqb orb];
    (destruct (check_for_expansion self); [|reflexivity]);
    unfold_M; cbn;
    destruct (expand_from_buffer (with_pending_expansion true self))
      as [[u s] l]; cbn; rewrite app_nil_r; reflexivity.
Qed.

Lemma filter_erase_block_press n :
  length (List.filter is_backspace_press (erase_block n)) = n.
Proof. induction n as [|n IH]; cbn; [reflexivity|]. f_equal. exact IH. Qed.

Lemma filter_erase_block_release n :
  length (List.filter is_backspace_release (erase_block n)) = n.
Proof. induction n as [|n IH]; cbn; [reflexivity|]. f_equal. exact IH. Qed.

Lemma filter_erase_block_other (p : Action → bool) n :
  p (Press (Special Key.backspace)) = false →
  p (Release (Special Key.backspace)) = false →
  p (Sleep 10) = false →
  List.filter p (erase_block n) = [].
Proof.
  intros H1 H2 H3. induction n as [|n IH]; cbn; [reflexivity|].
  rewrite H1, H2, H3. exact IH.
Qed.

(** ** The pending-expansion gate, the auto-mode rule and the replay *)

(** C9. Frame of the pending-delimiter path: when [pending_expansion] is
    set and a Space, Enter or Tab press arrives at a running monitor, the
    press is answered with the do-not-forward signal, nothing is done to the
    outside world, and the monitor is the one before with the flag cleared:
    buffer, control flag and the time of the last processed press are
    untouched.  The idle rule of a later press is therefore still measured
    from the old time stamp. *)
Theorem pending_delimiter_frame t key self :
  is_running self = true →
  pending_expansion self = true →
  is_delimiter key = true →
  let r := on_press t key self in
  state_of r = with_pending_expansion false self
  ∧ pending_expansion (state_of r) = false
  ∧ buffer (state_of r) = buffer self
  ∧ ctrl_pressed (state_of r) = ctrl_pressed self
  ∧ last_key_time (state_of r) = last_key_time self
  ∧ mode (state_of r) = mode self
  ∧ shortcuts (state_of r) = shortcuts self
  ∧ is_running (state_of r) = is_running self
  ∧ actions r = []
  ∧ suppressed (result r)
  ∧ ∀ t' key',
      on_press t' key' (state_of r)
      = dispatch key' (with_pending_expansion false (after_idle t' self)).
Proof.
  intros Hr Hp Hd r. subst r. rewrite (on_press_gate _ _ _ Hr Hp Hd).
  cbn. repeat split; try reflexivity.
  intros t' key'. rewrite on_press_processed; [|exact Hr|reflexivity].
  f_equal. unfold after_idle. cbn.
  destruct (more_than_two_seconds t' (last_key_time self)); reflexivity.
Qed.

Lemma pending_delimiter_frame_witness :
  let self := demo "auto" "tady" true in
  let r := on_press 5 (Special Key.enter) self in
  is_running self = true
  ∧ pending_expansion self = true
  ∧ is_delimiter (Special Key.enter) = true
  ∧ buffer (state_of r) = "tady"
  ∧ last_key_time (state_of r) = 0%Q
  ∧ pending_expansion (state_of r) = false.
Proof.
  pose proof (pending_delimiter_frame 5 (Special Key.enter)
                (demo "auto" "tady" true) eq_refl eq_refl eq_refl) as H.
  cbv zeta in H. destruct H as (_ & Hp & Hb & _ & Ht & _).
  cbv zeta. rewrite Hb, Ht, Hp. repeat split.
Defined.

(** C1 (amended). Auto mode, match.  On a running monitor in auto mode
    whose pending-expansion flag is clear, when a delimiter press (Space,
    Enter or Tab) arrives no more than 2 seconds after the last processed
    press and the lower-cased last token of the buffer is a key of the
    shortcuts: the press is answered with the do-not-forward signal, the flag
    is set, exactly [len(keyword)] backspace press/release pairs are
    synthesized, the clipboard is set to the mapped phrase, the notification
    is emitted exactly once with that keyword and phrase, and the buffer is
    cleared. *)
Theorem auto_match_expands t key self tok phrase :
  is_running self = true →
  mode self = "auto" →
  pending_expansion self = false →
  (t - last_key_time self <= 2)%Q →
  is_delimiter key = true →
  is_last_token (buffer self) tok →
  shortcuts self !! Py.lower tok = Some phrase →
  let keyword := Py.lower tok in
  let r := on_press t key self in
  suppressed (result r)
  ∧ pending_expansion (state_of r) = true
  ∧ buffer (state_of r) = ""
  ∧ state_of r
    = with_buffer "" (with_pending_expansion true (with_last_key_time t self))
  ∧ actions r
    = erase_block (String.length keyword) ++ paste_block phrase
        ++ [Emit keyword phrase]
  ∧ length (List.filter is_backspace_press (actions r))
    = String.length keyword
  ∧ length (List.filter is_backspace_release (actions r))
    = String.length keyword
  ∧ List.filter is_clipboard_write (actions r) = [ClipboardCopy phrase]
  ∧ List.filter is_notification (actions r) = [Emit keyword phrase].
Proof.
  intros Hr Hm Hp Ht Hd Htok Hs keyword r. subst r.
  assert (Hk : candidate (buffer self) = Some keyword)
    by (apply candidate_spec; exists tok; auto).
  rewrite on_press_processed by (try assumption; rewrite Hp; reflexivity).
  rewrite (after_idle_within _ _ Ht).
  rewrite dispatch_auto_delimiter; [|exact Hm|exact Hd].
  assert (Hc : check_for_expansion (with_last_key_time t self) = true).
  { apply check_for_expansion_true. exists keyword, phrase. auto. }
  rewrite Hc.
  rewrite (expand_from_buffer_match _ keyword phrase); [|exact Hk|exact Hs].
  cbn [result state_of actions fst snd].
  repeat split.
  - rewrite List.filter_app, length_app, filter_erase_block_press.
    cbn. lia.
  - rewrite List.filter_app, length_app, filter_erase_block_release.
    cbn. lia.
  - rewrite List.filter_app, filter_erase_block_other by reflexivity.
    reflexivity.
  - rewrite List.filter_app, filter_erase_block_other by reflexivity.
    reflexivity.
Qed.

Lemma auto_match_expands_witness :
  let self := demo "auto" "please tady" false in
  let r := on_press 1 (Special Key.space) self in
  is_running self = true
  ∧ mode self = "auto"
  ∧ pending_expansion self = false
  ∧ (1 - last_key_time self <= 2)%Q
  ∧ is_delimiter (Special Key.space) = true
  ∧ is_last_token (buffer self) "tady"
  ∧ shortcuts self !! Py.lower "tady" = Some tady_phrase
  ∧ length (List.filter is_backspace_press (actions r)) = 4
  ∧ List.filter is_notification (actions r) = [Emit "tady" tady_phrase].
Proof.
  cbv zeta.
  assert (Ht : (1 - last_key_time (demo "auto" "please tady" false) <= 2)%Q).
  { vm_compute. discriminate. }
  assert (Hs : shortcuts (demo "auto" "please tady" false)
                 !! Py.lower "tady"
               = Some tady_phrase).
  { vm_compute. reflexivity. }
  assert (Hk : is_last_token (buffer (demo "auto" "please tady" false))
                 "tady").
  { apply last_token_spec. reflexivity. }
  pose proof (auto_match_expands 1 (Special Key.space)
                (demo "auto" "please tady" false) "tady" tady_phrase
                eq_refl eq_refl eq_refl Ht eq_refl Hk Hs) as H.
  cbv zeta in H. destruct H as (_ & _ & _ & _ & _ & Hn & _ & _ & He).
  refine (conj eq_refl (conj eq_refl (conj eq_refl (conj Ht (conj eq_refl
            (conj Hk (conj Hs (conj Hn He)))))))).
Defined.

(** C1 as stated fails: the pending-expansion gate and the idle rule both
    run before the auto-mode rule.  First, after one expansion the flag is
    still set; typing the keyword again and pressing Space only clears the
    flag: nothing is erased or pasted and the buffer is kept.  Second, a
    Space arriving more than 2 seconds after the last press finds the buffer
    already reset: it is forwarded and nothing is expanded. *)
Lemma auto_match_counterexample :
  let start := run (set_mode "auto" (set_shortcuts demo_shortcuts (init 0))) in
  let self :=
    run_events (type_chars 0 "tady" ++ [EvPress 0 (Special Key.space)]
                  ++ type_chars 0 "tady") start in
  let r := on_press 0 (Special Key.space) self in
  let idle := demo "auto" "please tady" false in
  let r' := on_press 3 (Special Key.space) idle in
  (is_running self = true ∧ mode self = "auto"
   ∧ is_last_token (buffer self) "tady"
   ∧ shortcuts self !! Py.lower "tady" = Some tady_phrase
   ∧ pending_expansion (state_of r) = false
   ∧ buffer (state_of r) = "tady"
   ∧ actions r = [])
  ∧ (is_running idle = true ∧ mode idle = "auto"
     ∧ is_last_token (buffer idle) "tady"
     ∧ shortcuts idle !! Py.lower "tady" = Some tady_phrase
     ∧ result r' = None
     ∧ pending_expansion (state_of r') = false
     ∧ actions r' = []).
Proof.
  cbv zeta. rewrite <- !last_token_spec. vm_compute. repeat split.
Qed.

(** C5 (amended). Auto mode, no match.  On a running monitor in auto mode
    whose pending-expansion flag is clear and whose buffer's lower-cased last
    token is no key of the shortcuts (an empty or blank buffer has no token):
    a delimiter press clears the buffer, is forwarded, and nothing is done to
    the outside world: no synthetic key, no clipboard write, no
    notification. *)
Theorem auto_no_match_clears t key self :
  is_running self = true →
  mode self = "auto" →
  pending_expansion self = false →
  is_delimiter key = true →
  (∀ tok, is_last_token (buffer self) tok →
          shortcuts self !! Py.lower tok = None) →
  let r := on_press t key self in
  forwarded (result r)
  ∧ buffer (state_of r) = ""
  ∧ state_of r = with_buffer "" (with_last_key_time t self)
  ∧ actions r = []
  ∧ pending_expansion (state_of r) = false.
Proof.
  intros Hr Hm Hp Hd Hn r. subst r.
  rewrite on_press_processed by (try assumption; rewrite Hp; reflexivity).
  rewrite dispatch_auto_delimiter; [|rewrite after_idle_mode; exact Hm|exact Hd].
  assert (Hc : check_for_expansion (after_idle t self) = false).
  { apply check_for_expansion_false. intros keyword.
    rewrite after_idle_buffer, after_idle_shortcuts.
    destruct (more_than_two_seconds t (last_key_time self));
      [discriminate|].
    intros (tok & Htok & ->)%candidate_spec. apply Hn, Htok. }
  rewrite Hc. cbn [result state_of actions fst snd].
  repeat split; try assumption.
  - unfold after_idle.
    destruct (more_than_two_seconds t (last_key_time self)); reflexivity.
  - change (pending_expansion (after_idle t self) = false).
    rewrite after_idle_pending_expansion. exact Hp.
Qed.

Lemma auto_no_match_clears_witness :
  let self := demo "auto" "hello world" false in
  let r := on_press 1 (Special Key.enter) self in
  is_running self = true
  ∧ mode self = "auto"
  ∧ pending_expansion self = false
  ∧ is_delimiter (Special Key.enter) = true
  ∧ is_last_token (buffer self) "world"
  ∧ forwarded (result r)
  ∧ buffer (state_of r) = ""
  ∧ actions r = [].
Proof.
  cbv zeta.
  assert (Hn : ∀ tok,
             is_last_token (buffer (demo "auto" "hello world" false)) tok →
             shortcuts (demo "auto" "hello world" false) !! Py.lower tok
             = None).
  { intros tok [= <-]%last_token_spec. vm_compute. reflexivity. }
  assert (Hk : is_last_token (buffer (demo "auto" "hello world" false))
                 "world").
  { apply last_token_spec. reflexivity. }
  pose proof (auto_no_match_clears 1 (Special Key.enter)
                (demo "auto" "hello world" false)
                eq_refl eq_refl eq_refl eq_refl Hn) as H.
  cbv zeta in H. destruct H as (Hf & Hb & _ & Ha & _).
  refine (conj eq_refl (conj eq_refl (conj eq_refl (conj eq_refl
            (conj Hk (conj Hf (conj Hb Ha))))))).
Defined.

(** C5 as stated fails on a monitor whose pending-expansion flag is set:
    after one expansion, "hello" followed by Enter is not forwarded and the
    buffer is not cleared; the Enter only clears the flag. *)
Lemma auto_no_match_counterexample :
  let start := run (set_mode "auto" (set_shortcuts demo_shortcuts (init 0))) in
  let self :=
    run_events (type_chars 0 "tady" ++ [EvPress 0 (Special Key.space)]
                  ++ type_chars 0 "hello") start in
  let r := on_press 0 (Special Key.enter) self in
  is_running self = true ∧ mode self = "auto"
  ∧ (∀ tok, is_last_token (buffer self) tok →
            shortcuts self !! Py.lower tok = None)
  ∧ result r = Some false
  ∧ buffer (state_of r) = "hello".
Proof.
  cbv zeta.
  assert (E : run_events
                (type_chars 0 "tady" ++ [EvPress 0 (Special Key.space)]
                   ++ type_chars 0 "hello")
                (run (set_mode "auto" (set_shortcuts demo_shortcuts (init 0))))
              = mkMonitor true "auto" demo_shortcuts "hello" 0 false true).
  { vm_compute. reflexivity. }
  rewrite E. refine (conj eq_refl (conj eq_refl (conj _ (conj _ _)))).
  - intros tok [= <-]%last_token_spec. vm_compute. reflexivity.
  - vm_compute. reflexivity.
  - vm_compute. reflexivity.
Qed.



(** ** Frame of [expand_from_buffer] and [dispatch] *)

Lemma expand_from_buffer_state self :
  state_of (expand_from_buffer self)
  = if check_for_expansion self then with_buffer "" self else self.
Proof.
  destruct (check_for_expansion self) eqn:Hc.
  - apply check_for_expansion_true in Hc as (keyword & phrase & Hk & Hs).
    rewrite (expand_from_buffer_match _ _ _ Hk Hs). reflexivity.
  - rewrite (expand_from_buffer_no_match _ Hc). reflexivity.
Qed.

Ltac split_ifs :=
  repeat match goal with
         | |- context [if ?c then _ else _] => destruct c eqn:?
         | |- context [match key_char ?k with _ => _ end] =>
             destruct (key_char k) eqn:?
         end.

Ltac expand_cases self :=
  let H := fresh "Hexp" in
  pose proof (expand_from_buffer_state self) as H;
  destruct (expand_from_buffer self) as [[? ?] ?];
  unfold state_of in H; cbn [fst snd] in H; subst;
  destruct (check_for_expansion self).

Lemma dispatch_frame key self :
  let s' := state_of (dispatch key self) in
  is_running s' = is_running self
  ∧ mode s' = mode self
  ∧ shortcuts s' = shortcuts self
  ∧ last_key_time s' = last_key_time self.
Proof.
  unfold dispatch. unfold_M. split_ifs; cbn;
    try (repeat split; reflexivity).
  - expand_cases self; cbn; repeat split; reflexivity.
  - expand_cases (with_pending_expansion true self); cbn;
      repeat split; reflexivity.
Qed.

Lemma dispatch_hotkey key self :
  mode self = "hotkey" →
  result (dispatch key self) = None
  ∧ pending_expansion (state_of (dispatch key self)) = pending_expansion self.
Proof.
  intros Hm. unfold dispatch. unfold_M.
  destruct (key_is key Key.ctrl_l || key_is key Key.ctrl_r);
    [split; reflexivity|].
  cbv beta iota. rewrite Hm. cbn [String.eqb Ascii.eqb Bool.eqb].
  cbv beta iota.
  split_ifs; cbn; try (split; reflexivity).
  expand_cases self; cbn; split; reflexivity.
Qed.

Lemma dispatch_non_delimiter key self :
  is_delimiter key = false →
  result (dispatch key self) = None
  ∧ pending_expansion (state_of (dispatch key self)) = pending_expansion self
  ∧ actions (dispatch key self) = [].
Proof.
  intros Hd. unfold dispatch. unfold_M. unfold is_delimiter in Hd.
  assert (Hsp : key_is key Key.space = false).
  { unfold key_in in Hd. cbn in Hd. apply orb_false_iff in Hd as [H _].
    exact H. }
  destruct (key_is key Key.ctrl_l || key_is key Key.ctrl_r);
    [repeat split; reflexivity|].
  cbv beta iota. rewrite Hd, Hsp, andb_false_r.
  split_ifs; cbn; repeat split; reflexivity.
Qed.

(** ** Invariants of runs *)

Lemma on_release_frame key self :
  let s' := state_of (on_release key self) in
  is_running s' = is_running self
  ∧ mode s' = mode self
  ∧ shortcuts s' = shortcuts self
  ∧ buffer s' = buffer self
  ∧ last_key_time s' = last_key_time self
  ∧ pending_expansion s' = pending_expansion self
  ∧ actions (on_release key self) = [].
Proof.
  unfold on_release. unfold_M. split_ifs; cbn; repeat split; reflexivity.
Qed.

Lemma handle_release key self :
  handle (EvRelease key) self
  = (None, state_of (on_release key self), actions (on_release key self)).
Proof.
  unfold handle. destruct (on_release key self) as [[u s] l]. reflexivity.
Qed.

Lemma handle_frame e self :
  let s' := state_of (handle e self) in
  is_running s' = is_running self
  ∧ mode s' = mode self
  ∧ shortcuts s' = shortcuts self.
Proof.
  destruct e as [t key|key].
  - cbn [handle]. destruct (is_running self) eqn:Hr.
    + destruct (pending_expansion self && is_delimiter key) eqn:Hg.
      * apply andb_true_iff in Hg as [Hp Hd].
        rewrite (on_press_gate _ _ _ Hr Hp Hd). cbn. auto.
      * rewrite (on_press_processed _ _ _ Hr Hg).
        destruct (dispatch_frame key (after_idle t self)) as (H1 & H2 & H3 & _).
        cbv zeta. rewrite H1, H2, H3.
        rewrite after_idle_is_running, after_idle_mode, after_idle_shortcuts.
        auto.
    + rewrite (on_press_stopped _ _ _ Hr). cbn. auto.
  - rewrite handle_release. cbn.
    destruct (on_release_frame key self) as (H1 & H2 & H3 & _). auto.
Qed.

Lemma handle_non_delimiter e self :
  is_delimiter_press e = false →
  pending_expansion (state_of (handle e self)) = pending_expansion self
  ∧ result (handle e self) = None
  ∧ actions (handle e self) = [].
Proof.
  destruct e as [t key|key]; cbn [is_delimiter_press]; intros Hd.
  - cbn [handle]. destruct (is_running self) eqn:Hr.
    + rewrite on_press_processed by (try assumption; rewrite Hd; apply andb_false_r).
      destruct (dispatch_non_delimiter key (after_idle t self) Hd)
        as (H1 & H2 & H3).
      rewrite H1, H2, H3, after_idle_pending_expansion. auto.
    + rewrite (on_press_stopped _ _ _ Hr). cbn. auto.
  - rewrite handle_release. cbn.
    destruct (on_release_frame key self) as (_ & _ & _ & _ & _ & H1 & H2).
    auto.
Qed.


Lemma run_events_cons e es self :
  run_events (e :: es) self = run_events es (state_of (handle e self)).
Proof. reflexivity. Qed.

Lemma run_events_frame es self :
  is_running (run_events es self) = is_running self
  ∧ mode (run_events es self) = mode self
  ∧ shortcuts (run_events es self) = shortcuts self.
Proof.
  revert self. induction es as [|e es IH]; intros self; [auto|].
  rewrite run_events_cons.
  destruct (IH (state_of (handle e self))) as (H1 & H2 & H3).
  destruct (handle_frame e self) as (G1 & G2 & G3).
  rewrite H1, H2, H3. auto.
Qed.

Lemma run_events_non_delimiter es self :
  Forall (λ e, is_delimiter_press e = false) es →
  pending_expansion (run_events es self) = pending_expansion self
  ∧ Forall (λ ra, ra = (None, [])) (run_trace es self).
Proof.
  intros HF. revert self. induction HF as [|e es He HF IH]; intros self.
  - split; [reflexivity|constructor].
  - rewrite run_events_cons. cbn [run_trace].
    destruct (handle_non_delimiter e self He) as (H1 & H2 & H3).
    destruct (IH (state_of (handle e self))) as (G1 & G2).
    split; [congruence|]. constructor; [|exact G2].
    rewrite H2, H3. reflexivity.
Qed.

Lemma dispatch_suppressed_iff key self :
  suppressed (result (dispatch key self)) ↔
  mode self = "auto" ∧ is_delimiter key = true
  ∧ check_for_expansion self = true.
Proof.
  unfold suppressed. split.
  - intros H. destruct (is_delimiter key) eqn:Hd.
    2:{ destruct (dispatch_non_delimiter key self Hd) as (H1 & _).
        rewrite H1 in H. discriminate. }
    destruct (String.eqb (mode self) "auto") eqn:Hm.
    + apply String.eqb_eq in Hm.
      rewrite (dispatch_auto_delimiter _ _ Hm Hd) in H.
      destruct (check_for_expansion self); [auto|discriminate].
    + exfalso. revert H. unfold dispatch. unfold_M.
      destruct (key_is key Key.ctrl_l || key_is key Key.ctrl_r);
        [discriminate|].
      cbv beta iota. rewrite Hm.
      destruct (String.eqb (mode self) "hotkey"); [|discriminate].
      split_ifs; cbn; try discriminate.
      destruct (expand_from_buffer self) as [[u s] l]. cbn. discriminate.
  - intros (Hm & Hd & Hc).
    rewrite (dispatch_auto_delimiter _ _ Hm Hd), Hc. reflexivity.
Qed.





(** C3. Suppression idempotence.  From a running monitor whose
    pending-expansion flag is set, whatever non-delimiter events come first
    leave the flag set; the next delimiter press (Space, Enter or Tab) is
    answered with the do-not-forward signal and does nothing but clear the
    flag; the flag then stays clear until the following delimiter press,
    which is not consumed by the flag: it goes through the idle rule and the
    rule of the active mode (it refreshes the time of the last press, and it
    is suppressed only if it is itself an auto-mode match). *)
Theorem pending_suppresses_exactly_one self es1 t1 d1 es2 t2 d2 :
  is_running self = true →
  pending_expansion self = true →
  Forall (λ e, is_delimiter_press e = false) es1 →
  is_delimiter d1 = true →
  Forall (λ e, is_delimiter_press e = false) es2 →
  is_delimiter d2 = true →
  let s1 := run_events es1 self in
  let r1 := on_press t1 d1 s1 in
  let s2 := run_events es2 (state_of r1) in
  let r2 := on_press t2 d2 s2 in
  pending_expansion s1 = true
  ∧ suppressed (result r1)
  ∧ state_of r1 = with_pending_expansion false s1
  ∧ actions r1 = []
  ∧ pending_expansion s2 = false
  ∧ r2 = dispatch d2 (after_idle t2 s2)
  ∧ last_key_time (state_of r2) = t2
  ∧ (suppressed (result r2) ↔
     mode self = "auto" ∧ check_for_expansion (after_idle t2 s2) = true)
  ∧ (mode self = "hotkey" → forwarded (result r2)).
Proof.
  intros Hr Hp H1 Hd1 H2 Hd2 s1 r1 s2 r2.
  assert (Hp1 : pending_expansion s1 = true).
  { subst s1. rewrite (proj1 (run_events_non_delimiter es1 self H1)).
    exact Hp. }
  assert (Hr1 : is_running s1 = true).
  { subst s1. rewrite (proj1 (run_events_frame es1 self)). exact Hr. }
  assert (Er1 : r1 = (Some false, with_pending_expansion false s1, [])).
  { subst r1. apply on_press_gate; assumption. }
  assert (Hp2 : pending_expansion s2 = false).
  { subst s2. rewrite (proj1 (run_events_non_delimiter es2 _ H2)).
    rewrite Er1. reflexivity. }
  assert (Hr2 : is_running s2 = true).
  { subst s2. rewrite (proj1 (run_events_frame es2 _)).
    rewrite Er1. exact Hr1. }
  assert (Hm2 : mode s2 = mode self).
  { subst s2. rewrite (proj1 (proj2 (run_events_frame es2 _))).
    rewrite Er1. cbn. subst s1.
    apply (proj1 (proj2 (run_events_frame es1 self))). }
  assert (Er2 : r2 = dispatch d2 (after_idle t2 s2)).
  { subst r2. apply on_press_processed; [exact Hr2|].
    rewrite Hp2. reflexivity. }
  split; [exact Hp1|]. rewrite Er1.
  split; [reflexivity|]. split; [reflexivity|]. split; [reflexivity|].
  split; [exact Hp2|]. split; [exact Er2|]. rewrite Er2.
  split; [|split].
  - destruct (dispatch_frame d2 (after_idle t2 s2)) as (_ & _ & _ & Ht).
    cbv zeta in Ht. rewrite Ht. apply after_idle_last_key_time.
  - rewrite dispatch_suppressed_iff, after_idle_mode, Hm2. tauto.
  - intros Hm. apply dispatch_hotkey.
    rewrite after_idle_mode, Hm2. exact Hm.
Qed.

Lemma pending_suppresses_exactly_one_witness :
  let self := demo "auto" "" true in
  let es1 := type_chars 1 "ok" in
  let s1 := run_events es1 self in
  let r1 := on_press 1 (Special Key.space) s1 in
  let s2 := run_events [EvRelease (Special Key.space)] (state_of r1) in
  let r2 := on_press 2 (Special Key.tab) s2 in
  is_running self = true
  ∧ pending_expansion self = true
  ∧ Forall (λ e, is_delimiter_press e = false) es1
  ∧ is_delimiter (Special Key.space) = true
  ∧ Forall (λ e, is_delimiter_press e = false)
      [EvRelease (Special Key.space)]
  ∧ is_delimiter (Special Key.tab) = true
  ∧ suppressed (result r1)
  ∧ pending_expansion s2 = false
  ∧ r2 = dispatch (Special Key.tab) (after_idle 2 s2).
Proof.
  cbv zeta.
  assert (H1 : Forall (λ e, is_delimiter_press e = false)
                 (type_chars 1 "ok")).
  { repeat constructor. }
  assert (H2 : Forall (λ e, is_delimiter_press e = false)
                 [EvRelease (Special Key.space)]).
  { repeat constructor. }
  pose proof (pending_suppresses_exactly_one (demo "auto" "" true)
                (type_chars 1 "ok") 1 (Special Key.space)
                [EvRelease (Special Key.space)] 2 (Special Key.tab)
                eq_refl eq_refl H1 eq_refl H2 eq_refl) as H.
  cbv zeta in H. destruct H as (_ & Hs & _ & _ & Hp & Hr & _).
  repeat split; assumption.
Defined.

(** ** Hotkey mode *)

Lemma dispatch_hotkey_trigger self :
  mode self = "hotkey" →
  ctrl_pressed self = true →
  dispatch (Special Key.space) self
  = (None, state_of (expand_from_buffer self),
     actions (expand_from_buffer self)).
Proof.
  intros Hm Hc. unfold dispatch. unfold_M. cbn [key_is Key.eqb orb].
  cbv beta iota. rewrite Hm, Hc. cbn [String.eqb Ascii.eqb Bool.eqb andb].
  destruct (expand_from_buffer self) as [[u s] l]. cbn.
  rewrite app_nil_r. reflexivity.
Qed.

Lemma dispatch_hotkey_no_trigger key self :
  mode self = "hotkey" →
  ctrl_pressed self && key_is key Key.space = false →
  actions (dispatch key self) = []
  ∧ (key = Special Key.space →
     state_of (dispatch key self) = append_char " " self)
  ∧ (key = Special Key.enter ∨ key = Special Key.tab →
     state_of (dispatch key self) = self).
Proof.
  intros Hm Hc. unfold dispatch. unfold_M.
  destruct (key_is key Key.ctrl_l || key_is key Key.ctrl_r) eqn:Hk.
  - cbn. split; [reflexivity|].
    split; [intros ->|intros [->| ->]]; discriminate.
  - cbv beta iota. rewrite Hm, Hc. cbn [String.eqb Ascii.eqb Bool.eqb].
    split; [split_ifs; reflexivity|].
    split; [intros ->|intros [->| ->]]; reflexivity.
Qed.

Lemma handle_hotkey e self :
  mode self = "hotkey" →
  pending_expansion self = false →
  result (handle e self) = None
  ∧ pending_expansion (state_of (handle e self)) = false.
Proof.
  intros Hm Hp. destruct e as [t key|key].
  - cbn [handle]. destruct (is_running self) eqn:Hr.
    + rewrite on_press_processed by (try assumption; rewrite Hp; reflexivity).
      destruct (dispatch_hotkey key (after_idle t self)) as [H1 H2].
      { rewrite after_idle_mode. exact Hm. }
      rewrite H1, H2, after_idle_pending_expansion. auto.
    + rewrite (on_press_stopped _ _ _ Hr). auto.
  - rewrite handle_release. cbn.
    destruct (on_release_frame key self) as (_ & _ & _ & _ & _ & H1 & _).
    rewrite H1. auto.
Qed.

Lemma run_events_hotkey es self :
  mode self = "hotkey" →
  pending_expansion self = false →
  pending_expansion (run_events es self) = false
  ∧ Forall (λ ra, forwarded ra.1) (run_trace es self).
Proof.
  revert self. induction es as [|e es IH]; intros self Hm Hp.
  - split; [exact Hp|constructor].
  - rewrite run_events_cons. cbn [run_trace].
    destruct (handle_hotkey e self Hm Hp) as [H1 H2].
    destruct (IH (state_of (handle e self))) as [G1 G2].
    { rewrite (proj1 (proj2 (handle_frame e self))). exact Hm. }
    { exact H2. }
    split; [exact G1|]. constructor; [exact H1|exact G2].
Qed.

(** C4 (amended). Hotkey mode.  Start from a running monitor in hotkey mode
    whose pending-expansion flag is clear (as it is after construction), and
    let any sequence of presses and releases be handled.  Then no press of
    the sequence is suppressed and the flag stays clear.  For the next press:
    it is forwarded; if the control flag is set and the key is Space, what
    happens is exactly [expand_from_buffer] on the buffer left by the idle
    rule (the flag stays clear and no space is appended: the buffer is
    either cleared by the expansion or unchanged); otherwise nothing is
    done to the outside world: a plain Space appends one space to the
    buffer, a plain Enter or Tab changes nothing. *)
Theorem hotkey_mode_rule es self t key :
  is_running self = true →
  mode self = "hotkey" →
  pending_expansion self = false →
  let s := run_events es self in
  let r := on_press t key s in
  let s_idle := after_idle t s in
  Forall (λ ra, forwarded ra.1) (run_trace es self)
  ∧ pending_expansion s = false
  ∧ forwarded (result r)
  ∧ pending_expansion (state_of r) = false
  ∧ (ctrl_pressed s = true → key = Special Key.space →
     state_of r = state_of (expand_from_buffer s_idle)
     ∧ actions r = actions (expand_from_buffer s_idle)
     ∧ buffer (state_of r)
       = (if check_for_expansion s_idle then "" else buffer s_idle)
     ∧ buffer (state_of r) ≠ buffer s_idle +:+ " ")
  ∧ (ctrl_pressed s = false ∨ key ≠ Special Key.space → actions r = [])
  ∧ (ctrl_pressed s = false → key = Special Key.space →
     state_of r = append_char " " s_idle)
  ∧ (ctrl_pressed s = false →
     key = Special Key.enter ∨ key = Special Key.tab →
     state_of r = s_idle).
Proof.
  intros Hr Hm Hp s r s_idle.
  destruct (run_events_hotkey es self Hm Hp) as [Hps Htr]. fold s in Hps.
  assert (Hrs : is_running s = true).
  { subst s. rewrite (proj1 (run_events_frame es self)). exact Hr. }
  assert (Hms : mode s_idle = "hotkey").
  { subst s_idle s. rewrite after_idle_mode.
    rewrite (proj1 (proj2 (run_events_frame es self))). exact Hm. }
  assert (Er : r = dispatch key s_idle).
  { subst r s_idle. apply on_press_processed; [exact Hrs|].
    rewrite Hps. reflexivity. }
  assert (Hcs : ctrl_pressed s_idle = ctrl_pressed s).
  { subst s_idle. apply after_idle_ctrl_pressed. }
  destruct (dispatch_hotkey key s_idle Hms) as [Hres Hpend].
  split; [exact Htr|]. split; [exact Hps|]. rewrite Er.
  split; [exact Hres|].
  split.
  { rewrite Hpend. subst s_idle. rewrite after_idle_pending_expansion.
    exact Hps. }
  split; [|split; [|split]].
  - intros Hc ->. rewrite <- Hcs in Hc.
    rewrite (dispatch_hotkey_trigger _ Hms Hc).
    cbn [state_of actions fst snd].
    assert (Hb : buffer (state_of (expand_from_buffer s_idle))
                 = (if check_for_expansion s_idle then ""
                    else buffer s_idle)).
    { rewrite expand_from_buffer_state.
      destruct (check_for_expansion s_idle); reflexivity. }
    repeat split; try exact Hb.
    rewrite Hb. destruct (check_for_expansion s_idle).
    + intros E. apply (f_equal String.length) in E.
      rewrite app_length in E. cbn in E. lia.
    + intros E. symmetry in E. exact (app_space_neq _ E).
  - intros Hc. apply (dispatch_hotkey_no_trigger key s_idle Hms).
    rewrite Hcs. destruct Hc as [->|Hk]; [reflexivity|].
    destruct key as [[]|]; try apply andb_false_r. congruence.
  - intros Hc ->.
    apply (dispatch_hotkey_no_trigger (Special Key.space) s_idle Hms);
      [|reflexivity].
    rewrite Hcs, Hc. reflexivity.
  - intros Hc Hk.
    apply (dispatch_hotkey_no_trigger key s_idle Hms); [|exact Hk].
    rewrite Hcs, Hc. reflexivity.
Qed.

Lemma hotkey_mode_rule_witness :
  let self := run (set_shortcuts demo_shortcuts (init 0)) in
  let es := type_chars 1 "tady" ++ [EvPress 1 (Special Key.ctrl_l)] in
  let r := on_press 1 (Special Key.space) (run_events es self) in
  is_running self = true
  ∧ mode self = "hotkey"
  ∧ pending_expansion self = false
  ∧ forwarded (result r)
  ∧ pending_expansion (state_of r) = false
  ∧ Forall (λ ra, forwarded ra.1) (run_trace es self).
Proof.
  pose proof (hotkey_mode_rule
                (type_chars 1 "tady" ++ [EvPress 1 (Special Key.ctrl_l)])
                (run (set_shortcuts demo_shortcuts (init 0)))
                1 (Special Key.space) eq_refl eq_refl eq_refl) as H.
  cbv zeta in H. destruct H as (Htr & _ & Hf & Hp & _).
  cbv zeta. repeat split; assumption.
Defined.

(** C4 as stated fails on a monitor that an earlier auto-mode session left
    with the pending-expansion flag set ([stop] and [set_mode] do not clear
    it): in hotkey mode, with Control not held, the first plain Space is
    answered with the do-not-forward signal. *)
Lemma hotkey_mode_counterexample :
  let auto_session :=
    run_events (type_chars 0 "tady" ++ [EvPress 0 (Special Key.space)])
      (run (set_mode "auto" (set_shortcuts demo_shortcuts (init 0)))) in
  let self := run (set_mode "hotkey" (stop auto_session)) in
  let r := on_press 0 (Special Key.space) self in
  is_running self = true
  ∧ mode self = "hotkey"
  ∧ ctrl_pressed self = false
  ∧ result r = Some false.
Proof. vm_compute. repeat split. Qed.

(** ** Building the buffer *)

Lemma length_zero_empty s : (0 <? String.length s) = false → s = "".
Proof. destruct s; [reflexivity|discriminate]. Qed.

Lemma dispatch_edit key self :
  mode self = "hotkey" ∨ mode self = "auto" →
  is_delimiter key = false →
  buffer (state_of (dispatch key self)) = edit (buffer self) key.
Proof.
  intros Hm Hd. unfold is_delimiter in Hd.
  assert (Hsp : key_is key Key.space = false).
  { unfold key_in in Hd. cbn in Hd. apply orb_false_iff in Hd as [H _].
    exact H. }
  unfold dispatch, edit. unfold_M.
  destruct (key_is key Key.ctrl_l || key_is key Key.ctrl_r) eqn:Hc.
  - destruct key as [[]|]; try discriminate; reflexivity.
  - cbv beta iota. rewrite Hd, Hsp, andb_false_r.
    destruct Hm as [Hm|Hm]; rewrite Hm; cbn [String.eqb Ascii.eqb Bool.eqb];
      destruct (key_char key) as [c|]; try reflexivity;
      destruct (key_is key Key.backspace); cbn [andb]; try reflexivity;
      destruct (0 <? String.length (buffer self)) eqn:Hl; try reflexivity;
      apply length_zero_empty in Hl; cbn; rewrite Hl; reflexivity.
Qed.

Lemma on_press_edit t key self :
  is_running self = true →
  mode self = "hotkey" ∨ mode self = "auto" →
  is_delimiter key = false →
  let s' := state_of (on_press t key self) in
  buffer s' = edit (buffer (after_idle t self)) key
  ∧ last_key_time s' = t.
Proof.
  intros Hr Hm Hd s'. subst s'.
  rewrite on_press_processed by (try assumption; rewrite Hd; apply andb_false_r).
  split.
  - apply dispatch_edit; [rewrite after_idle_mode; exact Hm|exact Hd].
  - destruct (dispatch_frame key (after_idle t self)) as (_ & _ & _ & H).
    cbv zeta in H. rewrite H. apply after_idle_last_key_time.
Qed.

Lemma run_presses_edit ps : ∀ self,
  is_running self = true →
  mode self = "hotkey" ∨ mode self = "auto" →
  Forall (λ p, is_delimiter p.2 = false) ps →
  gaps_from (last_key_time self) ps →
  buffer (run_events (presses ps) self) = fold_left edit ps.*2 (buffer self).
Proof.
  induction ps as [|[t key] ps IH]; intros self Hr Hm HF Hg; [reflexivity|].
  inversion HF as [|? ? Hd HF']; subst. destruct Hg as [Hg1 Hg2].
  cbn [fst snd] in *.
  change (presses ((t, key) :: ps)) with (EvPress t key :: presses ps).
  change (fold_left edit ((t, key) :: ps).*2 (buffer self))
    with (fold_left edit ps.*2 (edit (buffer self) key)).
  rewrite run_events_cons. cbn [handle].
  destruct (on_press_edit t key self Hr Hm Hd) as [Hb Ht].
  destruct (handle_frame (EvPress t key) self) as (F1 & F2 & _).
  cbn [handle] in F1, F2.
  rewrite (IH (state_of (on_press t key self))).
  - rewrite Hb, (after_idle_within _ _ Hg1). reflexivity.
  - rewrite F1. exact Hr.
  - rewrite F2. exact Hm.
  - exact HF'.
  - rewrite Ht. exact Hg2.
Qed.

Lemma fold_left_edit_chars cs : ∀ buf,
  fold_left edit ((λ c, KeyCode (Some c)) <$> cs) buf
  = buf +:+ typed_text cs.
Proof.
  induction cs as [|c cs IH]; intros buf; cbn.
  - rewrite app_empty_r. reflexivity.
  - rewrite IH. unfold edit. cbn. destruct c as [|a c]; cbn [Py.truthy].
    + rewrite app_empty_l. reflexivity.
    + apply app_assoc_string.
Qed.

(** C6. The buffer is what was typed.  On a running monitor in either mode
    with an empty buffer, let presses that are no delimiter arrive, each no
    more than 2 seconds after the one before.  Then the buffer is the result
    of applying the presses in order, a character being appended and a
    Backspace removing the last character; when all the presses are
    character presses, the buffer is the concatenation of the characters.
    A Backspace arriving in time removes exactly the last character of a
    non-empty buffer and leaves an empty buffer empty. *)
Theorem buffer_is_what_was_typed self ps :
  is_running self = true →
  mode self = "hotkey" ∨ mode self = "auto" →
  buffer self = "" →
  Forall (λ p, is_delimiter p.2 = false) ps →
  gaps_within ps →
  buffer (run_events (presses ps) self) = fold_left edit ps.*2 ""
  ∧ (∀ cs, ps.*2 = (λ c, KeyCode (Some c)) <$> cs →
           buffer (run_events (presses ps) self) = typed_text cs)
  ∧ (∀ t buf c,
       (t - last_key_time self <= 2)%Q →
       buffer (state_of (on_press t (Special Key.backspace)
                           (with_buffer (buf +:+ String c "") self)))
       = buf)
  ∧ (∀ t, buffer (state_of (on_press t (Special Key.backspace) self)) = "").
Proof.
  intros Hr Hm Hb HF Hg.
  assert (Hseq : buffer (run_events (presses ps) self)
                 = fold_left edit ps.*2 "").
  { destruct ps as [|[t key] ps]; [exact Hb|].
    inversion HF as [|? ? Hd HF']; subst.
    cbn [fst snd gaps_within] in *.
    change (presses ((t, key) :: ps)) with (EvPress t key :: presses ps).
    change (fold_left edit ((t, key) :: ps).*2 "")
      with (fold_left edit ps.*2 (edit "" key)).
    rewrite run_events_cons. cbn [handle].
    destruct (on_press_edit t key self Hr Hm Hd) as [Hb' Ht].
    destruct (handle_frame (EvPress t key) self) as (F1 & F2 & _).
    cbn [handle] in F1, F2.
    rewrite (run_presses_edit ps (state_of (on_press t key self))).
    - rewrite Hb', after_idle_buffer, Hb.
      destruct (more_than_two_seconds t (last_key_time self)); reflexivity.
    - rewrite F1. exact Hr.
    - rewrite F2. exact Hm.
    - exact HF'.
    - rewrite Ht. exact Hg. }
  split; [exact Hseq|]. split; [|split].
  - intros cs E. rewrite Hseq, E, (fold_left_edit_chars cs "").
    reflexivity.
  - intros t buf c Ht.
    destruct (on_press_edit t (Special Key.backspace)
                (with_buffer (buf +:+ String c "") self) Hr Hm eq_refl)
      as [Hb' _].
    cbv zeta in Hb'. rewrite Hb'.
    rewrite after_idle_within by exact Ht. cbn.
    apply drop_last_snoc.
  - intros t.
    destruct (on_press_edit t (Special Key.backspace) self Hr Hm eq_refl)
      as [Hb' _].
    cbv zeta in Hb'. rewrite Hb', after_idle_buffer, Hb.
    destruct (more_than_two_seconds t (last_key_time self)); reflexivity.
Qed.

Ltac qle := unfold Qle, Qlt; cbn; lia.

Lemma buffer_is_what_was_typed_witness :
  let self := demo "auto" "" true in
  let ps := [(1%Q, KeyCode (Some "h")); (2%Q, KeyCode (Some "i"));
             (3%Q, Special Key.backspace); (5%Q, KeyCode (Some "o"))] in
  is_running self = true
  ∧ (mode self = "hotkey" ∨ mode self = "auto")
  ∧ buffer self = ""
  ∧ Forall (λ p, is_delimiter p.2 = false) ps
  ∧ gaps_within ps
  ∧ buffer (run_events (presses ps) self) = "ho".
Proof.
  cbv zeta.
  assert (HF : Forall (λ p : Q * key_arg, is_delimiter p.2 = false)
                 [(1%Q, KeyCode (Some "h")); (2%Q, KeyCode (Some "i"));
                  (3%Q, Special Key.backspace); (5%Q, KeyCode (Some "o"))]).
  { repeat constructor. }
  assert (Hg : gaps_within
                 [(1%Q, KeyCode (Some "h")); (2%Q, KeyCode (Some "i"));
                  (3%Q, Special Key.backspace); (5%Q, KeyCode (Some "o"))]).
  { cbn. repeat split; qle. }
  pose proof (buffer_is_what_was_typed (demo "auto" "" true) _
                eq_refl (or_intror eq_refl) eq_refl HF Hg) as H.
  destruct H as (Hb & _).
  refine (conj eq_refl (conj (or_intror eq_refl) (conj eq_refl
            (conj HF (conj Hg _))))).
  rewrite Hb. reflexivity.
Defined.

Lemma key_char_not_delimiter key c :
  key_char key = Some c → is_delimiter key = false.
Proof. destruct key as [[]|]; cbn; try discriminate; reflexivity. Qed.

Lemma on_press_last_key_time t key self :
  is_running self = true →
  pending_expansion self && is_delimiter key = false →
  last_key_time (state_of (on_press t key self)) = t.
Proof.
  intros Hr Hg. rewrite (on_press_processed _ _ _ Hr Hg).
  destruct (dispatch_frame key (after_idle t self)) as (_ & _ & _ & H).
  cbv zeta in H. rewrite H. apply after_idle_last_key_time.
Qed.

Lemma run_releases_frame ks : ∀ self,
  let s' := run_events (releases ks) self in
  is_running s' = is_running self
  ∧ mode s' = mode self
  ∧ buffer s' = buffer self
  ∧ last_key_time s' = last_key_time self
  ∧ pending_expansion s' = pending_expansion self.
Proof.
  induction ks as [|k ks IH]; intros self; [cbn; auto 6|].
  change (releases (k :: ks)) with (EvRelease k :: releases ks).
  cbv zeta. rewrite run_events_cons, handle_release.
  destruct (IH (state_of (None : option bool, state_of (on_release k self),
                          actions (on_release k self))))
    as (H1 & H2 & H3 & H4 & H5).
  destruct (on_release_frame k self) as (G1 & G2 & _ & G3 & G4 & G5 & _).
  cbv zeta in *. rewrite H1, H2, H3, H4, H5. cbn [state_of fst snd].
  auto 6.
Qed.

(** C7. Idle reset.  Let two presses be processed one after the other by a
    running monitor, at times [t1] and [t2], with only key releases between
    them (processed: not consumed by the pending-expansion gate).  The first
    leaves [t1] as the time of the last press.  If [t2 - t1] exceeds
    2 seconds, the rule of the second press runs on an emptied buffer, so a
    character pressed at [t2] becomes the whole buffer; if not, the rule
    runs on the buffer as the first press left it, and the character is
    appended to it. *)
Theorem idle_reset_between_presses self t1 k1 ks t2 k2 :
  is_running self = true →
  pending_expansion self && is_delimiter k1 = false →
  pending_expansion (state_of (on_press t1 k1 self)) && is_delimiter k2
  = false →
  let s1 := run_events (releases ks) (state_of (on_press t1 k1 self)) in
  let r2 := on_press t2 k2 s1 in
  last_key_time s1 = t1
  ∧ buffer s1 = buffer (state_of (on_press t1 k1 self))
  ∧ ((2 < t2 - t1)%Q →
     r2 = dispatch k2 (with_last_key_time t2 (with_buffer "" s1)))
  ∧ ((t2 - t1 <= 2)%Q →
     r2 = dispatch k2 (with_last_key_time t2 s1))
  ∧ (∀ c, mode self = "hotkey" ∨ mode self = "auto" →
          key_char k2 = Some c →
          ((2 < t2 - t1)%Q → buffer (state_of r2) = c)
          ∧ ((t2 - t1 <= 2)%Q → buffer (state_of r2) = buffer s1 +:+ c)).
Proof.
  intros Hr Hg1 Hg2 s1 r2.
  destruct (run_releases_frame ks (state_of (on_press t1 k1 self)))
    as (R1 & R2 & R3 & R4 & R5).
  cbv zeta in R1, R2, R3, R4, R5. fold s1 in R1, R2, R3, R4, R5.
  assert (Ht1 : last_key_time s1 = t1).
  { rewrite R4. apply on_press_last_key_time; assumption. }
  destruct (handle_frame (EvPress t1 k1) self) as (F1 & F2 & _).
  cbn [handle] in F1, F2.
  assert (Hr1 : is_running s1 = true) by (rewrite R1, F1; exact Hr).
  assert (Hm1 : mode s1 = mode self) by (rewrite R2; exact F2).
  assert (Er2 : r2 = dispatch k2 (after_idle t2 s1)).
  { subst r2. apply on_press_processed; [exact Hr1|].
    rewrite R5. exact Hg2. }
  assert (Hbeyond : (2 < t2 - t1)%Q →
            after_idle t2 s1 = with_last_key_time t2 (with_buffer "" s1)).
  { intros H. apply after_idle_beyond. rewrite Ht1. exact H. }
  assert (Hwithin : (t2 - t1 <= 2)%Q →
            after_idle t2 s1 = with_last_key_time t2 s1).
  { intros H. apply after_idle_within. rewrite Ht1. exact H. }
  split; [exact Ht1|]. split; [exact R3|]. rewrite Er2.
  split; [intros H; rewrite (Hbeyond H); reflexivity|].
  split; [intros H; rewrite (Hwithin H); reflexivity|].
  intros c Hm Hc.
  assert (Hd : is_delimiter k2 = false)
    by (eapply key_char_not_delimiter; exact Hc).
  assert (He : ∀ s, mode s = mode s1 →
                    buffer (state_of (dispatch k2 s)) = buffer s +:+ c).
  { intros s Hs. rewrite dispatch_edit; [|rewrite Hs, Hm1; exact Hm|exact Hd].
    unfold edit. rewrite Hc. reflexivity. }
  split; intros H.
  - rewrite (Hbeyond H), He by reflexivity. reflexivity.
  - rewrite (Hwithin H), He by reflexivity. reflexivity.
Qed.

Lemma idle_reset_between_presses_witness :
  let self := demo "hotkey" "abc" false in
  let s1 := run_events (releases [KeyCode (Some "d")])
              (state_of (on_press 10 (KeyCode (Some "d")) self)) in
  let r2 := on_press (121 # 10) (KeyCode (Some "x")) s1 in
  is_running self = true
  ∧ pending_expansion self && is_delimiter (KeyCode (Some "d")) = false
  ∧ pending_expansion (state_of (on_press 10 (KeyCode (Some "d")) self))
    && is_delimiter (KeyCode (Some "x")) = false
  ∧ (2 < (121 # 10) - 10)%Q
  ∧ buffer (state_of r2) = "x".
Proof.
  cbv zeta.
  pose proof (idle_reset_between_presses (demo "hotkey" "abc" false)
                10 (KeyCode (Some "d")) [KeyCode (Some "d")]
                (121 # 10) (KeyCode (Some "x"))
                eq_refl eq_refl eq_refl) as H.
  cbv zeta in H. destruct H as (_ & _ & _ & _ & H).
  assert (Hgap : (2 < (121 # 10) - 10)%Q) by qle.
  refine (conj eq_refl (conj eq_refl (conj eq_refl (conj Hgap _)))).
  exact (proj1 (H "x" (or_introl eq_refl) eq_refl) Hgap).
Defined.

(** ** Case-insensitive lookup *)


Lemma expand_from_buffer_candidate self :
  actions (expand_from_buffer self)
  = match candidate (buffer self) with
    | Some keyword =>
        match shortcuts self !! keyword with
        | Some phrase =>
            erase_block (String.length keyword) ++ paste_block phrase
              ++ [Emit keyword phrase]
        | None => []
        end
    | None => []
    end.
Proof.
  destruct (candidate (buffer self)) as [keyword|] eqn:Hk.
  - destruct (shortcuts self !! keyword) as [phrase|] eqn:Hs.
    + rewrite (expand_from_buffer_match _ _ _ Hk Hs). reflexivity.
    + rewrite expand_from_buffer_no_match; [reflexivity|].
      apply check_for_expansion_false. intros k Hk'.
      rewrite Hk in Hk'. injection Hk' as <-. exact Hs.
  - rewrite expand_from_buffer_no_match; [reflexivity|].
    apply check_for_expansion_false. intros k Hk'.
    rewrite Hk in Hk'. discriminate.
Qed.



(** * Further properties of the engine *)

Lemma replay_actions_eq keyword phrase :
  replay_actions keyword phrase
  = erase_block (String.length keyword) ++ paste_block phrase
      ++ [Emit keyword phrase].
Proof. reflexivity. Qed.

Lemma dispatch_ctrl_pressed key self :
  ctrl_pressed (state_of (dispatch key self))
  = if is_ctrl_key key then true else ctrl_pressed self.
Proof.
  unfold dispatch, is_ctrl_key. unfold_M.
  destruct (key_is key Key.ctrl_l || key_is key Key.ctrl_r); [reflexivity|].
  cbv beta iota. split_ifs; cbn; try reflexivity.
  - expand_cases self; reflexivity.
  - expand_cases (with_pending_expansion true self); reflexivity.
Qed.

Lemma is_ctrl_key_not_delimiter key :
  is_ctrl_key key = true → is_delimiter key = false.
Proof. destruct key as [[]|]; cbn; try discriminate; reflexivity. Qed.

Lemma handle_ctrl_pressed e self :
  is_running self = true →
  ctrl_pressed (state_of (handle e self)) = ctrl_after (ctrl_pressed self) e.
Proof.
  intros Hr. destruct e as [t key|key]; cbn [ctrl_after].
  - cbn [handle].
    destruct (pending_expansion self && is_delimiter key) eqn:Hg.
    + apply andb_true_iff in Hg as [Hp Hd].
      rewrite (on_press_gate _ _ _ Hr Hp Hd). cbn.
      destruct (is_ctrl_key key) eqn:Hc; [|reflexivity].
      apply is_ctrl_key_not_delimiter in Hc. congruence.
    + rewrite (on_press_processed _ _ _ Hr Hg), dispatch_ctrl_pressed.
      rewrite after_idle_ctrl_pressed. reflexivity.
  - rewrite handle_release. cbn [state_of fst snd].
    unfold on_release, is_ctrl_key. unfold_M.
    destruct (key_is key Key.ctrl_l || key_is key Key.ctrl_r); reflexivity.
Qed.

(** X1. The control flag is one flag for both control keys.  On a running
    monitor it is, after any sequence of events, what the last press or
    release of [ctrl_l] or [ctrl_r] made it (set by a press, cleared by a
    release), whatever the other keys do.  So with both control keys down,
    releasing either of them clears it. *)
Theorem ctrl_flag_follows_last_control_event es self :
  is_running self = true →
  ctrl_pressed (run_events es self) = foldl ctrl_after (ctrl_pressed self) es
  ∧ ∀ t1 t2 k1 k2 k3,
      is_ctrl_key k1 = true → is_ctrl_key k2 = true → is_ctrl_key k3 = true →
      ctrl_pressed
        (run_events (es ++ [EvPress t1 k1; EvPress t2 k2; EvRelease k3]) self)
      = false.
Proof.
  intros Hr.
  assert (Hgen : ∀ es' s, is_running s = true →
            ctrl_pressed (run_events es' s)
            = foldl ctrl_after (ctrl_pressed s) es').
  { induction es' as [|e es' IH]; intros s Hs; [reflexivity|].
    rewrite run_events_cons, IH.
    - rewrite (handle_ctrl_pressed _ _ Hs). reflexivity.
    - rewrite (proj1 (handle_frame e s)). exact Hs. }
  split; [apply Hgen, Hr|].
  intros t1 t2 k1 k2 k3 H1 H2 H3.
  rewrite (Hgen _ _ Hr), foldl_app. cbn. rewrite H1, H2, H3. reflexivity.
Qed.

Lemma ctrl_flag_follows_last_control_event_witness :
  let self := demo "hotkey" "tady" false in
  let es := [EvPress 1 (Special Key.ctrl_l); EvPress 1 (Special Key.ctrl_r);
             EvRelease (Special Key.ctrl_r)] in
  is_running self = true
  ∧ ctrl_pressed (run_events es self) = false.
Proof.
  cbv zeta. split; [reflexivity|].
  rewrite (proj1 (ctrl_flag_follows_last_control_event _
                    (demo "hotkey" "tady" false) eq_refl)).
  reflexivity.
Defined.

(** X2. A stopped monitor ignores every press: after any sequence of events
    nothing was suppressed, nothing was done to the outside world, and the
    monitor is as before but for the control flag, which a release of a
    control key still clears and which nothing sets. *)
Theorem stopped_monitor_ignores_presses es self :
  is_running self = false →
  run_events es self
  = with_ctrl_pressed (ctrl_pressed (run_events es self)) self
  ∧ (ctrl_pressed (run_events es self) = true → ctrl_pressed self = true)
  ∧ Forall (λ ra, ra = (None, [])) (run_trace es self)
  ∧ ∀ key, is_ctrl_key key = true →
           ctrl_pressed (run_events (es ++ [EvRelease key]) self) = false.
Proof.
  intros Hr.
  assert (Hstep : ∀ e s, is_running s = false →
            state_of (handle e s)
            = with_ctrl_pressed (ctrl_pressed (state_of (handle e s))) s
            ∧ (ctrl_pressed (state_of (handle e s)) = true →
               ctrl_pressed s = true)
            ∧ result (handle e s) = None
            ∧ actions (handle e s) = []).
  { intros e s Hs. destruct e as [t key|key].
    - cbn [handle]. rewrite (on_press_stopped _ _ _ Hs). cbn.
      destruct s; auto.
    - rewrite handle_release. cbn [state_of result actions fst snd].
      unfold on_release. unfold_M.
      destruct (key_is key Key.ctrl_l || key_is key Key.ctrl_r); cbn;
        destruct s; cbn; repeat split; auto; discriminate. }
  revert self Hr. induction es as [|e es IH]; intros self Hr.
  - cbn. destruct self; cbn. split; [reflexivity|]. split; [auto|].
    split; [constructor|]. intros key Hk.
    unfold is_ctrl_key in Hk. cbn. unfold on_release. unfold_M.
    rewrite Hk. reflexivity.
  - destruct (Hstep e self Hr) as (H1 & H2 & H3 & H4).
    assert (Hr' : is_running (state_of (handle e self)) = false).
    { rewrite (proj1 (handle_frame e self)). exact Hr. }
    destruct (IH _ Hr') as (G1 & G2 & G3 & G4).
    rewrite run_events_cons. cbn [run_trace].
    split; [|split; [|split]].
    + etransitivity; [exact G1|].
      generalize (ctrl_pressed (run_events es (state_of (handle e self)))).
      intros c. rewrite H1. destruct self; reflexivity.
    + intros H. apply H2, G2, H.
    + constructor; [|exact G3]. rewrite H3, H4. reflexivity.
    + intros key Hk.
      change ((e :: es) ++ [EvRelease key])
        with (e :: (es ++ [EvRelease key])).
      rewrite run_events_cons. apply G4, Hk.
Qed.

Lemma stopped_monitor_ignores_presses_witness :
  let self := stop (demo "auto" "tady" false) in
  let es := [EvPress 1 (Special Key.space); EvPress 9 (KeyCode (Some "x"))] in
  is_running self = false
  ∧ run_events es self = self
  ∧ Forall (λ ra, ra = (None, [])) (run_trace es self).
Proof.
  cbv zeta.
  destruct (stopped_monitor_ignores_presses
              [EvPress 1 (Special Key.space); EvPress 9 (KeyCode (Some "x"))]
              (stop (demo "auto" "tady" false)) eq_refl)
    as (H1 & _ & H3 & _).
  split; [reflexivity|]. split; [|exact H3].
  rewrite H1. vm_compute. reflexivity.
Defined.

Lemma dispatch_pending_not_auto key self :
  mode self ≠ "auto" →
  pending_expansion (state_of (dispatch key self)) = pending_expansion self.
Proof.
  intros Hm. unfold dispatch. unfold_M.
  destruct (key_is key Key.ctrl_l || key_is key Key.ctrl_r); [reflexivity|].
  cbv beta iota.
  destruct (String.eqb (mode self) "auto") eqn:Ha.
  { apply String.eqb_eq in Ha. contradiction. }
  split_ifs; cbn; try reflexivity.
  expand_cases self; reflexivity.
Qed.

Lemma handle_pending_not_auto e self :
  mode self ≠ "auto" →
  pending_expansion (state_of (handle e self)) = true →
  pending_expansion self = true.
Proof.
  intros Hm. destruct e as [t key|key].
  - cbn [handle]. destruct (is_running self) eqn:Hr.
    + destruct (pending_expansion self && is_delimiter key) eqn:Hg.
      * apply andb_true_iff in Hg as [Hp _]. auto.
      * rewrite (on_press_processed _ _ _ Hr Hg).
        rewrite dispatch_pending_not_auto
          by (rewrite after_idle_mode; exact Hm).
        rewrite after_idle_pending_expansion. auto.
    + rewrite (on_press_stopped _ _ _ Hr). auto.
  - rewrite handle_release. cbn.
    destruct (on_release_frame key self) as (_ & _ & _ & _ & _ & H & _).
    rewrite H. auto.
Qed.

(** X3. What the callbacks never do.  Whatever events are handled, the
    running flag, the mode and the shortcuts of the monitor stay as they
    were; and outside auto mode the pending-expansion flag is never set: if
    it is set afterwards, it was set before. *)
Theorem callbacks_keep_configuration es self :
  is_running (run_events es self) = is_running self
  ∧ mode (run_events es self) = mode self
  ∧ shortcuts (run_events es self) = shortcuts self
  ∧ (mode self ≠ "auto" →
     pending_expansion (run_events es self) = true →
     pending_expansion self = true).
Proof.
  destruct (run_events_frame es self) as (H1 & H2 & H3).
  repeat split; try assumption. clear H1 H2 H3.
  revert self. induction es as [|e es IH]; intros self Hm Hp; [exact Hp|].
  rewrite run_events_cons in Hp.
  apply (handle_pending_not_auto e self Hm). apply IH; [|exact Hp].
  rewrite (proj1 (proj2 (handle_frame e self))). exact Hm.
Qed.

Lemma callbacks_keep_configuration_witness :
  let self := demo "hotkey" "ab" true in
  let es := [EvPress 1 (KeyCode (Some "x")); EvRelease (KeyCode (Some "x"))] in
  mode self ≠ "auto"
  ∧ pending_expansion (run_events es self) = true
  ∧ pending_expansion self = true
  ∧ shortcuts (run_events es self) = shortcuts self.
Proof.
  cbv zeta.
  pose proof (callbacks_keep_configuration
                [EvPress 1 (KeyCode (Some "x")); EvRelease (KeyCode (Some "x"))]
                (demo "hotkey" "ab" true)) as (_ & _ & H3 & H4).
  assert (Hm : mode (demo "hotkey" "ab" true) ≠ "auto") by discriminate.
  assert (Hp : pending_expansion
                 (run_events
                    [EvPress 1 (KeyCode (Some "x"));
                     EvRelease (KeyCode (Some "x"))]
                    (demo "hotkey" "ab" true)) = true)
    by (vm_compute; reflexivity).
  exact (conj Hm (conj Hp (conj (H4 Hm Hp) H3))).
Defined.

Lemma dispatch_actions key self :
  actions (dispatch key self) = []
  ∨ actions (dispatch key self) = actions (expand_from_buffer self)
  ∨ actions (dispatch key self)
    = actions (expand_from_buffer (with_pending_expansion true self)).
Proof.
  unfold dispatch. unfold_M.
  destruct (key_is key Key.ctrl_l || key_is key Key.ctrl_r); [auto|].
  cbv beta iota. split_ifs; cbn; auto.
  - right. left. destruct (expand_from_buffer self) as [[u s] l]. cbn.
    rewrite app_nil_r. reflexivity.
  - right. right.
    destruct (expand_from_buffer (with_pending_expansion true self))
      as [[u s] l]. cbn. rewrite app_nil_r. reflexivity.
Qed.

Lemma lower_idem s : Py.lower (Py.lower s) = Py.lower s.
Proof.
  induction s as [|c s IH]; cbn; [reflexivity|].
  rewrite lower_char_idem, IH. reflexivity.
Qed.

Lemma no_space_lower s : no_space (Py.lower s) = no_space s.
Proof.
  induction s as [|c s IH]; cbn; [reflexivity|].
  rewrite isspace_lower_char, IH. reflexivity.
Qed.

Lemma candidate_shape buf keyword :
  candidate buf = Some keyword →
  keyword ≠ "" ∧ no_space keyword = true ∧ Py.lower keyword = keyword.
Proof.
  intros (tok & (pre & post & _ & _ & Hne & Hns & _) & ->)%candidate_spec.
  split; [|split].
  - destruct tok; [congruence|discriminate].
  - rewrite no_space_lower. exact Hns.
  - apply lower_idem.
Qed.

Lemma expand_actions_shape self :
  actions (expand_from_buffer self) = []
  ∨ ∃ keyword phrase,
      candidate (buffer self) = Some keyword
      ∧ shortcuts self !! keyword = Some phrase
      ∧ actions (expand_from_buffer self) = replay_actions keyword phrase.
Proof.
  rewrite expand_from_buffer_candidate.
  destruct (candidate (buffer self)) as [keyword|] eqn:Hk; [|auto].
  destruct (shortcuts self !! keyword) as [phrase|] eqn:Hs; [|auto].
  right. exists keyword, phrase. auto.
Qed.

Lemma handle_actions_shape e self :
  actions (handle e self) = []
  ∨ ∃ keyword phrase,
      shortcuts self !! keyword = Some phrase
      ∧ keyword ≠ "" ∧ no_space keyword = true
      ∧ Py.lower keyword = keyword
      ∧ actions (handle e self) = replay_actions keyword phrase.
Proof.
  assert (Hexp : ∀ s, shortcuts s = shortcuts self →
    actions (expand_from_buffer s) = []
    ∨ ∃ keyword phrase,
        shortcuts self !! keyword = Some phrase
        ∧ keyword ≠ "" ∧ no_space keyword = true
        ∧ Py.lower keyword = keyword
        ∧ actions (expand_from_buffer s) = replay_actions keyword phrase).
  { intros s Hs. destruct (expand_actions_shape s)
      as [H|(keyword & phrase & Hk & Hp & Ha)]; [auto|].
    right. exists keyword, phrase. rewrite <- Hs.
    destruct (candidate_shape _ _ Hk) as (H1 & H2 & H3). auto 6. }
  destruct e as [t key|key].
  - cbn [handle]. destruct (is_running self) eqn:Hr.
    + destruct (pending_expansion self && is_delimiter key) eqn:Hg.
      * apply andb_true_iff in Hg as [Hp Hd].
        rewrite (on_press_gate _ _ _ Hr Hp Hd). auto.
      * rewrite (on_press_processed _ _ _ Hr Hg).
        destruct (dispatch_actions key (after_idle t self)) as [H|[H|H]];
          rewrite H; [auto| |]; apply Hexp; cbn;
          apply after_idle_shortcuts.
    + rewrite (on_press_stopped _ _ _ Hr). auto.
  - rewrite handle_release.
    destruct (on_release_frame key self) as (_ & _ & _ & _ & _ & _ & H).
    auto.
Qed.

(** X4. Whatever events are handled, each callback either does nothing to
    the outside world or performs one complete replay for a keyword of the
    shortcuts and its phrase: the backspace pairs for the keyword, the
    clipboard write of the phrase, the paste chord, one notification.  The
    keyword is non-empty, free of whitespace and lower-case.  So the
    clipboard is written only with phrases of the shortcuts, and never
    without the paste and the notification that follow. *)
Theorem callbacks_only_replay_shortcuts es self :
  Forall (λ ra,
            ra.2 = []
            ∨ ∃ keyword phrase,
                shortcuts self !! keyword = Some phrase
                ∧ keyword ≠ "" ∧ no_space keyword = true
                ∧ Py.lower keyword = keyword
                ∧ ra.2 = replay_actions keyword phrase)
         (run_trace es self).
Proof.
  assert (Hgen : ∀ d s, shortcuts s = d →
    Forall (λ ra,
              ra.2 = []
              ∨ ∃ keyword phrase,
                  d !! keyword = Some phrase
                  ∧ keyword ≠ "" ∧ no_space keyword = true
                  ∧ Py.lower keyword = keyword
                  ∧ ra.2 = replay_actions keyword phrase)
           (run_trace es s)).
  { intros d. induction es as [|e es IH]; intros s Hs; [constructor|].
    cbn [run_trace]. constructor.
    - cbn [snd]. rewrite <- Hs. apply handle_actions_shape.
    - apply IH. rewrite (proj2 (proj2 (handle_frame e s))). exact Hs. }
  apply Hgen. reflexivity.
Qed.

(** X5. [expand_from_buffer] twice is [expand_from_buffer] once: whatever
    the first call did, a second call right after it does nothing and
    leaves the monitor as the first left it.  On a blank buffer (empty or
    all whitespace) the match check is false and the expansion does nothing,
    whatever the shortcuts are, the empty keyword included. *)
Theorem expand_from_buffer_idempotent self :
  expand_from_buffer (state_of (expand_from_buffer self))
  = (tt, state_of (expand_from_buffer self), [])
  ∧ (all_space (buffer self) = true →
     check_for_expansion self = false
     ∧ expand_from_buffer self = (tt, self, [])).
Proof.
  split.
  - apply expand_from_buffer_no_match.
    rewrite expand_from_buffer_state.
    destruct (check_for_expansion self) eqn:Hc; [reflexivity|exact Hc].
  - intros Hb.
    assert (Hc : check_for_expansion self = false).
    { apply check_for_expansion_false. intros keyword Hk.
      apply candidate_spec in Hk as (tok & Ht & _).
      exfalso. exact (blank_buffer_no_token _ _ Hb Ht). }
    split; [exact Hc|]. apply expand_from_buffer_no_match, Hc.
Qed.

Lemma expand_from_buffer_idempotent_witness :
  let self := with_shortcuts {[ "" := "never" ]} (demo "auto" "   " false) in
  all_space (buffer self) = true
  ∧ shortcuts self !! "" = Some "never"
  ∧ check_for_expansion self = false.
Proof.
  cbv zeta. split; [reflexivity|]. split; [vm_compute; reflexivity|].
  exact (proj1 (proj2 (expand_from_buffer_idempotent
                         (with_shortcuts {[ "" := "never" ]}
                            (demo "auto" "   " false))) eq_refl)).
Defined.

(** X6. Only a non-empty, whitespace-free, lower-case keyword can ever be
    expanded: if an expansion notifies keyword [k] with phrase [p], then
    [k] has these three properties and is mapped to [p].  A shortcut whose
    keyword is empty, holds a whitespace character or a capital letter is
    therefore never expanded, on any buffer. *)
Theorem only_plain_keywords_expand self k p :
  Emit k p ∈ actions (expand_from_buffer self) →
  k ≠ "" ∧ no_space k = true ∧ Py.lower k = k
  ∧ shortcuts self !! k = Some p
  ∧ candidate (buffer self) = Some k.
Proof.
  intros Hin.
  destruct (expand_actions_shape self)
    as [H|(keyword & phrase & Hk & Hp & Ha)].
  { rewrite H in Hin. apply elem_of_nil in Hin. contradiction. }
  rewrite Ha, replay_actions_eq in Hin.
  assert (E : Emit k p = Emit keyword phrase).
  { apply elem_of_app in Hin as [Hin|Hin].
    - exfalso. unfold erase_block in Hin.
      apply list_elem_of_join in Hin as (l & Hin & Hl).
      apply elem_of_replicate in Hl as [-> _].
      repeat (apply elem_of_cons in Hin as [Hin|Hin]; [discriminate|]).
      apply elem_of_nil in Hin. exact Hin.
    - apply elem_of_app in Hin as [Hin|Hin].
      + exfalso. unfold paste_block in Hin.
        repeat (apply elem_of_cons in Hin as [Hin|Hin]; [discriminate|]).
        apply elem_of_nil in Hin. exact Hin.
      + apply list_elem_of_singleton in Hin. exact Hin. }
  injection E as -> ->.
  destruct (candidate_shape _ _ Hk) as (H1 & H2 & H3). auto.
Qed.

Lemma only_plain_keywords_expand_witness :
  let self := demo "auto" "see you brb" false in
  Emit "brb" "be right back" ∈ actions (expand_from_buffer self)
  ∧ no_space "brb" = true ∧ Py.lower "brb" = "brb".
Proof.
  cbv zeta.
  assert (Hin : Emit "brb" "be right back"
                ∈ actions (expand_from_buffer
                             (demo "auto" "see you brb" false))).
  { assert (E : actions (expand_from_buffer
                           (demo "auto" "see you brb" false))
                = replay_actions "brb" "be right back")
      by (vm_compute; reflexivity).
    rewrite E. unfold replay_actions. apply elem_of_app. right.
    do 7 apply list_elem_of_further. apply list_elem_of_here. }
  destruct (only_plain_keywords_expand _ _ _ Hin) as (_ & H2 & H3 & _).
  auto.
Defined.



(** X8. The control key is subject to the idle rule.  On a running monitor
    in hotkey mode with the pending-expansion flag clear, a press of
    [ctrl_l] or [ctrl_r] that arrives more than 2 seconds after the last
    press empties the buffer; the Space that follows, whenever it comes,
    then expands nothing, whatever had been typed. *)
Theorem hotkey_after_pause_expands_nothing t t' key self :
  is_running self = true →
  mode self = "hotkey" →
  pending_expansion self = false →
  is_ctrl_key key = true →
  (2 < t - last_key_time self)%Q →
  let s1 := state_of (on_press t key self) in
  s1 = with_ctrl_pressed true (with_last_key_time t (with_buffer "" self))
  ∧ on_press t' (Special Key.space) s1 = (None, with_last_key_time t' s1, []).
Proof.
  intros Hr Hm Hp Hk Ht s1.
  assert (E1 : s1 = with_ctrl_pressed true
                      (with_last_key_time t (with_buffer "" self))).
  { subst s1.
    rewrite on_press_processed
      by (try assumption; rewrite Hp; reflexivity).
    rewrite (after_idle_beyond _ _ Ht).
    unfold dispatch, is_ctrl_key in *. rewrite Hk. reflexivity. }
  split; [exact E1|]. rewrite E1.
  rewrite on_press_processed by (cbn; try assumption; rewrite Hp; reflexivity).
  rewrite dispatch_hotkey_trigger
    by (rewrite ?after_idle_mode, ?after_idle_ctrl_pressed; cbn;
        first [assumption|reflexivity]).
  assert (Hb : buffer (after_idle t'
                 (with_ctrl_pressed true
                    (with_last_key_time t (with_buffer "" self)))) = "").
  { rewrite after_idle_buffer. cbn.
    destruct (more_than_two_seconds t' t); reflexivity. }
  rewrite expand_from_buffer_no_match.
  - cbn [state_of actions fst snd]. f_equal. f_equal.
    unfold after_idle. cbn.
    destruct (more_than_two_seconds t' t); reflexivity.
  - apply check_for_expansion_false. intros keyword Hc.
    rewrite Hb in Hc. discriminate.
Qed.

Lemma hotkey_after_pause_expands_nothing_witness :
  let self := demo "hotkey" "tady" false in
  let s1 := state_of (on_press 3 (Special Key.ctrl_l) self) in
  is_running self = true
  ∧ mode self = "hotkey"
  ∧ pending_expansion self = false
  ∧ is_ctrl_key (Special Key.ctrl_l) = true
  ∧ (2 < 3 - last_key_time self)%Q
  ∧ on_press 3 (Special Key.space) s1 = (None, with_last_key_time 3 s1, []).
Proof.
  cbv zeta.
  assert (Ht : (2 < 3 - last_key_time (demo "hotkey" "tady" false))%Q)
    by qle.
  destruct (hotkey_after_pause_expands_nothing 3 3 (Special Key.ctrl_l)
              (demo "hotkey" "tady" false)
              eq_refl eq_refl eq_refl eq_refl Ht) as [_ H].
  refine (conj eq_refl (conj eq_refl (conj eq_refl (conj eq_refl
            (conj Ht H))))).
Defined.

(** X9. In auto mode the buffer does not survive a processed delimiter.
    On a running monitor in auto mode with the pending-expansion flag clear,
    after a Space, Enter or Tab press the buffer is empty, whether the press
    expanded something or not; the press is suppressed exactly when actions
    were performed, and then the flag is set. *)
Theorem auto_delimiter_empties_buffer t key self :
  is_running self = true →
  mode self = "auto" →
  pending_expansion self = false →
  is_delimiter key = true →
  let r := on_press t key self in
  buffer (state_of r) = ""
  ∧ (suppressed (result r) ↔ actions r ≠ [])
  ∧ (suppressed (result r) ↔ pending_expansion (state_of r) = true)
  ∧ (forwarded (result r) ↔ actions r = []).
Proof.
  intros Hr Hm Hp Hd r. subst r.
  rewrite on_press_processed by (try assumption; rewrite Hp; reflexivity).
  rewrite dispatch_auto_delimiter
    by (try assumption; rewrite after_idle_mode; exact Hm).
  destruct (check_for_expansion (after_idle t self)) eqn:Hc.
  - apply check_for_expansion_true in Hc as (keyword & phrase & Hk & Hs).
    rewrite (expand_from_buffer_match _ keyword phrase); [|exact Hk|exact Hs].
    cbn [result state_of actions fst snd]. unfold suppressed, forwarded.
    assert (Hne : erase_block (String.length keyword) ++ paste_block phrase
                    ++ [Emit keyword phrase] ≠ []).
    { destruct (erase_block (String.length keyword)); discriminate. }
    repeat split; auto; try discriminate; intros; congruence.
  - cbn [result state_of actions fst snd]. unfold suppressed, forwarded.
    assert (Hpe : pending_expansion (with_buffer "" (after_idle t self))
                  = false).
    { change (pending_expansion (after_idle t self) = false).
      rewrite after_idle_pending_expansion. exact Hp. }
    rewrite Hpe.
    repeat split; auto; try discriminate; intros; congruence.
Qed.

Lemma auto_delimiter_empties_buffer_witness :
  let self := demo "auto" "hello there" false in
  let r := on_press 1 (Special Key.tab) self in
  is_running self = true
  ∧ mode self = "auto"
  ∧ pending_expansion self = false
  ∧ is_delimiter (Special Key.tab) = true
  ∧ buffer (state_of r) = "".
Proof.
  cbv zeta.
  destruct (auto_delimiter_empties_buffer 1 (Special Key.tab)
              (demo "auto" "hello there" false)
              eq_refl eq_refl eq_refl eq_refl) as [H _].
  refine (conj eq_refl (conj eq_refl (conj eq_refl (conj eq_refl H)))).
Defined.

(** * Properties of the shortcut store *)

Section StoreFacts.

Implicit Types (db : Database.t) (r : Row) (k p c : string).

Lemma next_rowid_fresh db :
  Database.seq db < Database.next_rowid db
  ∧ Forall (λ r, row_id r < Database.next_rowid db) (Database.rows db).
Proof.
  unfold Database.next_rowid. split; [lia|].
  apply Forall_forall. intros r Hr.
  assert (row_id r ≤ max_list (row_id <$> Database.rows db)).
  { apply max_list_elem_of_le. apply list_elem_of_fmap. eauto. }
  lia.
Qed.

Lemma has_keyword_true k db :
  Database.has_keyword k db = true ↔ k ∈ row_keyword <$> Database.rows db.
Proof. unfold Database.has_keyword. apply bool_decide_eq_true. Qed.

Lemma has_keyword_false k db :
  Database.has_keyword k db = false ↔ k ∉ row_keyword <$> Database.rows db.
Proof. unfold Database.has_keyword. apply bool_decide_eq_false. Qed.

Lemma store_ok_snoc db r :
  store_ok db →
  row_keyword r ∉ row_keyword <$> Database.rows db →
  row_id r = Database.next_rowid db →
  store_ok (Database.mk (Database.rows db ++ [r]) (row_id r)).
Proof.
  intros (Hk & Hi & Hs) Hnew Hid.
  destruct (next_rowid_fresh db) as [Hseq Hfresh].
  rewrite Forall_forall in Hfresh, Hs.
  unfold store_ok. cbn. rewrite !fmap_app. cbn.
  split; [|split].
  - apply NoDup_app. split; [exact Hk|]. split; [|apply NoDup_singleton].
    intros x Hx ->%list_elem_of_singleton. contradiction.
  - apply NoDup_app. split; [exact Hi|]. split; [|apply NoDup_singleton].
    intros x Hx ->%list_elem_of_singleton.
    apply list_elem_of_fmap in Hx as (r' & E & Hr').
    specialize (Hfresh _ Hr'). lia.
  - apply Forall_app. split.
    + apply Forall_forall. intros r' Hr'. specialize (Hfresh _ Hr'). lia.
    + constructor; [lia|constructor].
Qed.

Lemma store_ok_sublist db l :
  store_ok db →
  sublist l (Database.rows db) →
  store_ok (Database.mk l (Database.seq db)).
Proof.
  intros (Hk & Hi & Hs) Hl. unfold store_ok. cbn.
  split; [|split].
  - eapply sublist_NoDup; [exact Hk|]. apply (fmap_sublist row_keyword), Hl.
  - eapply sublist_NoDup; [exact Hi|]. apply (fmap_sublist row_id), Hl.
  - rewrite Forall_forall in Hs |- *. intros r Hr. apply Hs.
    eapply elem_of_sublist; eassumption.
Qed.

Lemma insert_ok k p c u db db' :
  store_ok db → Database.insert k p c u db = Some db' → store_ok db'.
Proof.
  unfold Database.insert. intros Hok.
  destruct (Database.has_keyword k db) eqn:Hh; [discriminate|].
  intros [= <-]. apply has_keyword_false in Hh.
  apply (store_ok_snoc db (mkRow (Database.next_rowid db) k p c u));
    auto.
Qed.

Lemma insert_or_replace_ok k p c u db :
  store_ok db → store_ok (Database.insert_or_replace k p c u db).
Proof.
  intros Hok. unfold Database.insert_or_replace.
  set (kept := filter (λ r, row_keyword r ≠ k) (Database.rows db)).
  assert (Hkept : store_ok (Database.mk kept (Database.seq db))).
  { apply store_ok_sublist; [exact Hok|]. apply sublist_filter. }
  destruct (next_rowid_fresh db) as [Hseq Hfresh].
  rewrite Forall_forall in Hfresh.
  destruct Hkept as (Hk & Hi & Hs). cbn in Hk, Hi, Hs.
  rewrite Forall_forall in Hs.
  unfold store_ok. cbn. rewrite !fmap_app. cbn.
  split; [|split].
  - apply NoDup_app. split; [exact Hk|]. split; [|apply NoDup_singleton].
    intros x Hx ->%list_elem_of_singleton.
    apply list_elem_of_fmap in Hx as (r' & E & Hr').
    apply list_elem_of_filter in Hr' as [Hne _]. congruence.
  - apply NoDup_app. split; [exact Hi|]. split; [|apply NoDup_singleton].
    intros x Hx ->%list_elem_of_singleton.
    apply list_elem_of_fmap in Hx as (r' & E & Hr').
    apply list_elem_of_filter in Hr' as [_ Hr'].
    specialize (Hfresh _ Hr'). lia.
  - apply Forall_app. split.
    + apply Forall_forall. intros r' Hr'.
      apply list_elem_of_filter in Hr' as [_ Hr'].
      specialize (Hfresh _ Hr'). lia.
    + constructor; [cbn; lia|constructor].
Qed.

Lemma executemany_insert_ok l : ∀ db db',
  store_ok db → Database.executemany_insert l db = Some db' → store_ok db'.
Proof.
  induction l as [|[[k p] c] l IH]; intros db db' Hok; cbn.
  - intros [= <-]. exact Hok.
  - destruct (Database.insert k p c 0 db) as [db1|] eqn:E; cbn;
      [|discriminate].
    apply IH. eapply insert_ok; eassumption.
Qed.

Lemma import_data_ok data : ∀ db,
  store_ok db → store_ok (Database.import_data data db).
Proof.
  unfold Database.import_data.
  induction data as [|s data IH]; intros db Hok; [exact Hok|].
  cbn. apply IH, insert_or_replace_ok, Hok.
Qed.

Lemma update_rows_absent (i : nat) (f : Row → Row) (l : list Row) :
  i ∉ row_id <$> l →
  (λ r, if bool_decide (row_id r = i) then f r else r) <$> l = l.
Proof.
  intros Hi. induction l as [|r l IH]; [reflexivity|].
  cbn in *. apply not_elem_of_cons in Hi as [Hne Hi].
  rewrite bool_decide_eq_false_2 by congruence. rewrite (IH Hi).
  reflexivity.
Qed.

Lemma update_ok i k p c db db' :
  store_ok db → Database.update_shortcut i k p c db = Some db' →
  store_ok db'.
Proof.
  unfold Database.update_shortcut. intros (Hk & Hi & Hs).
  destruct (bool_decide (i ∈ row_id <$> Database.rows db)) eqn:Hin; cbn.
  2:{ intros [= <-]. apply bool_decide_eq_false in Hin.
      rewrite (update_rows_absent _ _ _ Hin). destruct db. split; auto. }
  destruct (existsb _ (Database.rows db)) eqn:Hex; [discriminate|].
  intros [= <-].
  assert (Hfree : ∀ r, r ∈ Database.rows db → row_id r ≠ i →
                       row_keyword r ≠ Py.lower k).
  { intros r Hr Hne Heq.
    assert (existsb (λ r, bool_decide (row_id r ≠ i
                                       ∧ row_keyword r = Py.lower k))
              (Database.rows db) = true); [|congruence].
    apply existsb_exists. exists r. split; [apply list_elem_of_In, Hr|].
    apply bool_decide_eq_true. auto. }
  clear Hex Hin.
  set (f := λ r, if bool_decide (row_id r = i)
                 then mkRow (row_id r) (Py.lower k) p c (row_usage r)
                 else r).
  assert (Hid : ∀ r, row_id (f r) = row_id r).
  { intros r. unfold f. destruct (bool_decide (row_id r = i)); reflexivity. }
  unfold store_ok. cbn.
  assert (Eids : row_id <$> (f <$> Database.rows db)
                 = row_id <$> Database.rows db).
  { rewrite <- list_fmap_compose. apply list_fmap_ext. intros ? r _. apply Hid. }
  split; [|split].
  - revert Hk Hi Hfree. generalize (Database.rows db) as l.
    induction l as [|r l IH]; intros Hk Hi Hfree; [constructor|].
    cbn in *. apply NoDup_cons in Hk as [Hk1 Hk2].
    apply NoDup_cons in Hi as [Hi1 Hi2].
    assert (Hfree' : ∀ r', r' ∈ l → row_id r' ≠ i →
                           row_keyword r' ≠ Py.lower k).
    { intros r' Hr'. apply Hfree. apply list_elem_of_further, Hr'. }
    apply NoDup_cons. split; [|apply IH; assumption].
    intros Hx. apply list_elem_of_fmap in Hx as (r1 & E & Hr1).
    apply list_elem_of_fmap in Hr1 as (r2 & -> & Hr2).
    unfold f in E.
    destruct (bool_decide (row_id r = i)) eqn:Hri;
      destruct (bool_decide (row_id r2 = i)) eqn:Hr2i; cbn in E.
    + apply bool_decide_eq_true in Hri, Hr2i. apply Hi1.
      apply list_elem_of_fmap. exists r2. split; [congruence|exact Hr2].
    + apply bool_decide_eq_false in Hr2i.
      apply (Hfree' r2 Hr2 Hr2i). congruence.
    + apply bool_decide_eq_false in Hri.
      apply (Hfree r (list_elem_of_here _ _) Hri). exact E.
    + apply Hk1. apply list_elem_of_fmap. exists r2. auto.
  - rewrite Eids. exact Hi.
  - apply Forall_fmap. eapply Forall_impl; [exact Hs|].
    intros r Hr. cbn. rewrite Hid. exact Hr.
Qed.

Lemma increment_ok k db : store_ok db → store_ok (Database.increment_usage k db).
Proof.
  intros (Hk & Hi & Hs). unfold Database.increment_usage, store_ok. cbn.
  set (f := λ r, if bool_decide (row_keyword r = Py.lower k)
                 then mkRow (row_id r) (row_keyword r) (row_phrase r)
                            (row_category r) (row_usage r + 1)
                 else r).
  assert (Hid : ∀ r, row_id (f r) = row_id r)
    by (intros r; unfold f; destruct (bool_decide _); reflexivity).
  assert (Hkw : ∀ r, row_keyword (f r) = row_keyword r)
    by (intros r; unfold f; destruct (bool_decide _); reflexivity).
  split; [|split].
  - rewrite <- list_fmap_compose.
    rewrite (list_fmap_ext _ row_keyword); [exact Hk|]. intros ? r _. apply Hkw.
  - rewrite <- list_fmap_compose.
    rewrite (list_fmap_ext _ row_id); [exact Hi|]. intros ? r _. apply Hid.
  - apply Forall_fmap. eapply Forall_impl; [exact Hs|].
    intros r Hr. cbn. rewrite Hid. exact Hr.
Qed.

Lemma delete_ok i db : store_ok db → store_ok (Database.delete_shortcut i db).
Proof.
  intros Hok. unfold Database.delete_shortcut.
  apply store_ok_sublist; [exact Hok|]. apply sublist_filter.
Qed.

Lemma store_ok_empty : store_ok Database.empty.
Proof. repeat split; constructor. Qed.

Lemma store_after_ok db call : store_ok db → store_ok (store_after db call).
Proof.
  intros Hok. destruct call; cbn [store_after].
  - unfold Database.init_database.
    destruct (bool_decide _); [|exact Hok].
    destruct (Database.executemany_insert _ db) as [db'|] eqn:E;
      [|exact Hok].
    cbn. eapply executemany_insert_ok; eassumption.
  - unfold Database.add_shortcut.
    destruct (Database.insert _ _ _ _ db) as [db'|] eqn:E; [|exact Hok].
    cbn. eapply insert_ok; eassumption.
  - destruct (Database.update_shortcut _ _ _ _ db) as [db'|] eqn:E;
      [|exact Hok].
    cbn. eapply update_ok; eassumption.
  - apply delete_ok, Hok.
  - apply increment_ok, Hok.
  - apply import_data_ok, Hok.
Qed.

End StoreFacts.

(** X10. The store keeps its constraints.  On a store whose keywords are
    unique, whose row ids are unique and none of which exceeds the
    [AUTOINCREMENT] counter (the empty file is one), these three still hold
    after any sequence of calls of [init_database], [add_shortcut],
    [update_shortcut], [delete_shortcut], [increment_usage] and
    [import_data], a call that raises changing nothing. *)
Theorem store_keeps_constraints db calls :
  store_ok db → store_ok (foldl store_after db calls).
Proof.
  revert db. induction calls as [|c calls IH]; intros db Hok; [exact Hok|].
  cbn. apply IH, store_after_ok, Hok.
Qed.

Lemma store_keeps_constraints_witness :
  store_ok Database.empty
  ∧ store_ok
      (foldl store_after Database.empty
         [CallInit; CallAdd "BRB" "be right back" "Chat"; CallDelete 2;
          CallImport [mkExported "tady" "Thanks!" "Thanks" None];
          CallUpdate 1 "hello" "Hi" "Greetings"; CallIncrement "bye"]).
Proof.
  split; [exact store_ok_empty|].
  apply store_keeps_constraints. exact store_ok_empty.
Defined.

Section SnapshotFacts.

Implicit Types (db : Database.t) (r : Row) (k p c : string).

Lemma next_rowid_ok db :
  store_ok db → Database.next_rowid db = S (Database.seq db).
Proof.
  intros (_ & _ & Hs). unfold Database.next_rowid. f_equal.
  apply Nat.max_l. induction Hs as [|r l Hr Hl IH]; cbn; [lia|].
  cbn in IH. lia.
Qed.

Lemma shortcuts_dict_snoc (l : list Row) r :
  MainWindow.shortcuts_dict (l ++ [r])
  = <[row_keyword r := row_phrase r]> (MainWindow.shortcuts_dict l).
Proof. unfold MainWindow.shortcuts_dict. rewrite foldl_app. reflexivity. Qed.

Lemma shortcuts_dict_lookup (l : list Row) k p :
  NoDup (row_keyword <$> l) →
  MainWindow.shortcuts_dict l !! k = Some p
  ↔ ∃ r, r ∈ l ∧ row_keyword r = k ∧ row_phrase r = p.
Proof.
  induction l as [|r l IH] using rev_ind; intros Hnd.
  - cbn. rewrite lookup_empty. split; [discriminate|].
    intros (r & Hr & _). apply elem_of_nil in Hr. contradiction.
  - rewrite fmap_app in Hnd. apply NoDup_app in Hnd as (Hnd & Hdis & _).
    rewrite shortcuts_dict_snoc.
    destruct (decide (row_keyword r = k)) as [E|E].
    + rewrite E, lookup_insert_eq. split.
      * intros [= <-]. exists r. split; [|auto].
        apply elem_of_app. right. apply list_elem_of_singleton. reflexivity.
      * intros (r' & Hr' & Hk & Hp). apply elem_of_app in Hr' as [Hr'|Hr'].
        -- exfalso. apply (Hdis k).
           ++ apply list_elem_of_fmap. eauto.
           ++ cbn. rewrite E. apply list_elem_of_here.
        -- apply list_elem_of_singleton in Hr'. subst r'. congruence.
    + rewrite lookup_insert_ne by exact E. rewrite (IH Hnd). split.
      * intros (r' & Hr' & Hk & Hp). exists r'. split; [|auto].
        apply elem_of_app. auto.
      * intros (r' & Hr' & Hk & Hp). exists r'. split; [|auto].
        apply elem_of_app in Hr' as [Hr'|Hr']; [exact Hr'|].
        apply list_elem_of_singleton in Hr'. subst r'. congruence.
Qed.

Lemma shortcuts_dict_perm (l1 l2 : list Row) :
  l1 ≡ₚ l2 → NoDup (row_keyword <$> l1) →
  MainWindow.shortcuts_dict l1 = MainWindow.shortcuts_dict l2.
Proof.
  intros Hp Hnd.
  assert (Hnd2 : NoDup (row_keyword <$> l2)) by (rewrite <- Hp; exact Hnd).
  apply map_eq. intros k. apply option_eq. intros p.
  rewrite (shortcuts_dict_lookup _ _ _ Hnd), (shortcuts_dict_lookup _ _ _ Hnd2).
  split; intros (r & Hr & H); exists r; (split; [|exact H]).
  - rewrite <- Hp. exact Hr.
  - rewrite Hp. exact Hr.
Qed.

Lemma get_all_shortcuts_perm db :
  Database.get_all_shortcuts db ≡ₚ Database.rows db.
Proof. apply merge_sort_Permutation. Qed.

(** The dictionary handed to the monitor does not depend on the order in
    which [get_all_shortcuts] returns the rows. *)
Lemma snapshot_rows db :
  store_ok db → snapshot db = MainWindow.shortcuts_dict (Database.rows db).
Proof.
  intros (Hk & _). unfold snapshot. apply shortcuts_dict_perm.
  - apply get_all_shortcuts_perm.
  - rewrite get_all_shortcuts_perm. exact Hk.
Qed.

Lemma snapshot_lookup db k p :
  store_ok db →
  snapshot db !! k = Some p
  ↔ ∃ r, r ∈ Database.rows db ∧ row_keyword r = k ∧ row_phrase r = p.
Proof.
  intros Hok. rewrite (snapshot_rows _ Hok).
  apply shortcuts_dict_lookup, Hok.
Qed.

Lemma snapshot_lookup_None db k :
  store_ok db →
  snapshot db !! k = None ↔ k ∉ row_keyword <$> Database.rows db.
Proof.
  intros Hok. rewrite eq_None_not_Some. split.
  - intros Hn Hin. apply list_elem_of_fmap in Hin as (r & -> & Hr).
    apply Hn. exists (row_phrase r). apply snapshot_lookup; eauto.
  - intros Hn [p Hp]. apply snapshot_lookup in Hp as (r & Hr & <- & _);
      [|exact Hok].
    apply Hn, list_elem_of_fmap. eauto.
Qed.

Lemma executemany_insert_fresh l : ∀ db,
  store_ok db →
  NoDup (l.*1.*1) →
  (∀ k, k ∈ l.*1.*1 → k ∉ row_keyword <$> Database.rows db) →
  Database.executemany_insert l db
  = Some (Database.mk (Database.rows db ++ seeded (S (Database.seq db)) l)
            (Database.seq db + length l)).
Proof.
  induction l as [|[[k p] c] l IH]; intros db Hok Hnd Hnew.
  - cbn. rewrite app_nil_r, Nat.add_0_r. destruct db; reflexivity.
  - cbn in Hnd. apply NoDup_cons in Hnd as [Hk Hnd].
    cbn [Database.executemany_insert]. unfold Database.insert.
    assert (Hh : Database.has_keyword k db = false).
    { apply has_keyword_false, Hnew. cbn. apply list_elem_of_here. }
    rewrite Hh, (next_rowid_ok _ Hok). cbn [mbind option_bind].
    rewrite IH.
    + cbn. rewrite <- app_assoc. f_equal. f_equal. lia.
    + pose proof (insert_ok k p c 0 db) as Hio. unfold Database.insert in Hio.
      rewrite Hh, (next_rowid_ok _ Hok) in Hio. apply Hio; [exact Hok|].
      reflexivity.
    + exact Hnd.
    + intros k' Hk'. cbn. rewrite fmap_app. cbn.
      intros [Hin|Hin]%elem_of_app.
      * apply (Hnew k'); [|exact Hin]. cbn. apply list_elem_of_further, Hk'.
      * apply list_elem_of_singleton in Hin. subst k'. contradiction.
Qed.

Lemma delete_all_rows (ids : list nat) : ∀ db,
  (∀ r, r ∈ Database.rows db → row_id r ∈ ids) →
  foldl (λ d i, Database.delete_shortcut i d) db ids
  = Database.mk [] (Database.seq db).
Proof.
  induction ids as [|i ids IH]; intros db Hall.
  - cbn. destruct db as [[|r l] n]; [reflexivity|].
    specialize (Hall r (list_elem_of_here _ _)).
    apply elem_of_nil in Hall. contradiction.
  - cbn. rewrite IH; [reflexivity|].
    intros r Hr. cbn in Hr. apply list_elem_of_filter in Hr as [Hne Hr].
    specialize (Hall r Hr). apply elem_of_cons in Hall as [E|Hin];
      [contradiction|exact Hin].
Qed.

End SnapshotFacts.

(** X11. [init_database] never raises.  On a table that has rows it
    changes nothing; on an empty table it inserts the seven default
    shortcuts, with usage 0 and the row ids that follow the [AUTOINCREMENT]
    counter.  So it is idempotent, and it brings the defaults back, under
    new row ids, once every shortcut has been deleted. *)
Theorem init_database_seeds db :
  (Database.rows db ≠ [] → Database.init_database db = Some db)
  ∧ (Database.rows db = [] →
     Database.init_database db
     = Some (Database.mk
               (seeded (S (Database.seq db)) Database.default_shortcuts)
               (Database.seq db + 7)))
  ∧ is_Some (Database.init_database db)
  ∧ (∀ db', Database.init_database db = Some db' →
            Database.init_database db' = Some db')
  ∧ Database.init_database
      (foldl (λ d i, Database.delete_shortcut i d) db
         (row_id <$> Database.rows db))
    = Some (Database.mk
              (seeded (S (Database.seq db)) Database.default_shortcuts)
              (Database.seq db + 7)).
Proof.
  assert (Hne : Database.rows db ≠ [] → Database.init_database db = Some db).
  { intros H. unfold Database.init_database.
    rewrite bool_decide_eq_false_2; [reflexivity|].
    destruct (Database.rows db); [congruence|discriminate]. }
  assert (He : ∀ d, Database.rows d = [] →
     Database.init_database d
     = Some (Database.mk
               (seeded (S (Database.seq d)) Database.default_shortcuts)
               (Database.seq d + 7))).
  { intros d H. unfold Database.init_database.
    rewrite bool_decide_eq_true_2 by (rewrite H; reflexivity).
    rewrite executemany_insert_fresh.
    - rewrite H. reflexivity.
    - destruct d as [l n]. cbn in H. subst l. repeat split; constructor.
    - cbn. apply (bool_decide_unpack _). vm_compute. exact I.
    - intros k _. rewrite H. apply not_elem_of_nil. }
  split; [exact Hne|]. split; [apply He|]. split; [|split].
  - destruct (Database.rows db) eqn:E.
    + rewrite (He db E). eauto.
    + rewrite Hne by discriminate. eauto.
  - intros db' H. destruct (Database.rows db) eqn:E.
    + rewrite (He db E) in H. injection H as <-.
      unfold Database.init_database. reflexivity.
    + rewrite Hne in H by discriminate. injection H as <-.
      apply Hne. discriminate.
  - rewrite delete_all_rows.
    + apply (He (Database.mk [] (Database.seq db))). reflexivity.
    + intros r Hr. apply list_elem_of_fmap. eauto.
Qed.

Lemma init_database_seeds_witness :
  let db := Database.mk [mkRow 3 "tady" "Thanks" "Thanks" 5] 9 in
  Database.rows db ≠ []
  ∧ Database.init_database db = Some db
  ∧ Database.init_database (Database.delete_shortcut 3 db)
    = Some (Database.mk (seeded 10 Database.default_shortcuts) 16).
Proof.
  cbv zeta.
  pose proof (init_database_seeds
                (Database.mk [mkRow 3 "tady" "Thanks" "Thanks" 5] 9))
    as (H1 & _ & _ & _ & H5).
  split; [discriminate|]. split; [apply H1; discriminate|exact H5].
Defined.

(** X12. Adding and looking up.  On a store that keeps its constraints,
    [add_shortcut] answers [False] exactly when the keyword, lower-cased, is
    already stored, and then changes nothing.  When it answers [True] the
    keyword was absent from the dictionary handed to the monitor, the new
    dictionary is the old one with the lower-cased keyword mapped to the
    phrase, and the new row has usage 0 and a row id above every row id in
    use. *)
Theorem add_shortcut_round_trip db keyword phrase category :
  store_ok db →
  let r := Database.add_shortcut keyword phrase category db in
  (r.1 = false ↔ Py.lower keyword ∈ row_keyword <$> Database.rows db)
  ∧ (r.1 = false → r.2 = db)
  ∧ (r.1 = true →
     snapshot db !! Py.lower keyword = None
     ∧ snapshot r.2 = <[Py.lower keyword := phrase]> (snapshot db)
     ∧ snapshot r.2 !! Py.lower keyword = Some phrase
     ∧ Database.rows r.2
       = Database.rows db
           ++ [mkRow (S (Database.seq db)) (Py.lower keyword) phrase
                 category 0]
     ∧ Forall (λ r', row_id r' < S (Database.seq db)) (Database.rows db)).
Proof.
  intros Hok r. subst r. unfold Database.add_shortcut, Database.insert.
  destruct (Database.has_keyword (Py.lower keyword) db) eqn:Hh; cbn [fst snd].
  - apply has_keyword_true in Hh.
    split; [tauto|]. split; [reflexivity|discriminate].
  - apply has_keyword_false in Hh.
    split; [split; [discriminate|contradiction]|].
    split; [discriminate|]. intros _.
    rewrite (next_rowid_ok _ Hok).
    set (new := mkRow (S (Database.seq db)) (Py.lower keyword) phrase
                  category 0).
    assert (Hok' : store_ok (Database.mk (Database.rows db ++ [new])
                               (S (Database.seq db)))).
    { apply (store_ok_snoc db new); [exact Hok|exact Hh|].
      symmetry. apply next_rowid_ok, Hok. }
    assert (Hsnap : snapshot (Database.mk (Database.rows db ++ [new])
                                (S (Database.seq db)))
                    = <[Py.lower keyword := phrase]> (snapshot db)).
    { rewrite (snapshot_rows _ Hok'), (snapshot_rows _ Hok). cbn.
      apply shortcuts_dict_snoc. }
    split; [apply snapshot_lookup_None; assumption|].
    split; [exact Hsnap|]. split; [rewrite Hsnap; apply lookup_insert_eq|].
    split; [reflexivity|].
    destruct Hok as (_ & _ & Hs). eapply Forall_impl; [exact Hs|].
    intros r' Hr'. cbn in Hr'. lia.
Qed.

Lemma add_shortcut_round_trip_witness :
  let db := Database.mk (seeded 1 Database.default_shortcuts) 7 in
  store_ok db
  ∧ (Database.add_shortcut "TADY" "again" "Thanks" db).1 = false
  ∧ (Database.add_shortcut "Brb" "be right back" "Chat" db).1 = true
  ∧ snapshot (Database.add_shortcut "Brb" "be right back" "Chat" db).2
      !! "brb" = Some "be right back".
Proof.
  cbv zeta.
  assert (Hok : store_ok (Database.mk (seeded 1 Database.default_shortcuts) 7)).
  { assert (E : Database.init_database Database.empty
                = Some (Database.mk (seeded 1 Database.default_shortcuts) 7))
      by reflexivity.
    apply (executemany_insert_ok Database.default_shortcuts Database.empty);
      [exact store_ok_empty|exact E]. }
  split; [exact Hok|].
  split; [vm_compute; reflexivity|]. split; [vm_compute; reflexivity|].
  destruct (add_shortcut_round_trip _ "Brb" "be right back" "Chat" Hok)
    as (_ & _ & H).
  destruct (H ltac:(vm_compute; reflexivity)) as (_ & _ & H3 & _).
  exact H3.
Defined.

Section UpdateDelete.

Implicit Types (db : Database.t) (r : Row).

Lemma NoDup_fmap_same {A B} (f : A → B) (l : list A) x y :
  NoDup (f <$> l) → x ∈ l → y ∈ l → f x = f y → x = y.
Proof.
  induction l as [|a l IH]; intros Hnd Hx Hy E.
  - apply elem_of_nil in Hx. contradiction.
  - cbn in Hnd. apply NoDup_cons in Hnd as [Ha Hnd].
    apply elem_of_cons in Hx as [->|Hx]; apply elem_of_cons in Hy as [->|Hy].
    + reflexivity.
    + exfalso. apply Ha. rewrite E. apply list_elem_of_fmap. eauto.
    + exfalso. apply Ha. rewrite <- E. apply list_elem_of_fmap. eauto.
    + apply IH; assumption.
Qed.

Lemma delete_absent i db :
  i ∉ row_id <$> Database.rows db → Database.delete_shortcut i db = db.
Proof.
  intros Hi. unfold Database.delete_shortcut. destruct db as [l n]. cbn in *.
  f_equal. induction l as [|r l IH]; [reflexivity|].
  cbn in Hi. apply not_elem_of_cons in Hi as [Hne Hi].
  rewrite filter_cons_True by congruence. rewrite (IH Hi). reflexivity.
Qed.

Lemma store_after_seq db call :
  Database.seq db ≤ Database.seq (store_after db call).
Proof.
  assert (Hins : ∀ k p c u d d', Database.insert k p c u d = Some d' →
                                 Database.seq d ≤ Database.seq d').
  { intros k p c u d d'. unfold Database.insert.
    destruct (Database.has_keyword k d); [discriminate|]. intros [= <-].
    cbn. unfold Database.next_rowid. lia. }
  destruct call; cbn [store_after].
  - unfold Database.init_database. destruct (bool_decide _); [|cbn; lia].
    generalize Database.default_shortcuts. intros l. revert db.
    induction l as [|[[k p] c] l IH]; intros db; cbn; [lia|].
    destruct (Database.insert k p c 0 db) as [db1|] eqn:E; cbn; [|lia].
    specialize (IH db1). apply Hins in E.
    destruct (Database.executemany_insert l db1); cbn in *; lia.
  - unfold Database.add_shortcut.
    destruct (Database.insert _ _ _ _ db) as [db'|] eqn:E; cbn; [|lia].
    eapply Hins, E.
  - unfold Database.update_shortcut. destruct (_ && _); cbn; lia.
  - cbn. lia.
  - cbn. lia.
  - unfold Database.import_data. revert db.
    induction data as [|s data IH]; intros db; cbn; [lia|].
    etransitivity; [|apply IH]. cbn. unfold Database.next_rowid. lia.
Qed.

Lemma insert_retired i k p c u db db' :
  store_ok db → retired i db →
  Database.insert k p c u db = Some db' → retired i db'.
Proof.
  intros Hok [Hle Hni]. unfold Database.insert.
  destruct (Database.has_keyword k db); [discriminate|]. intros [= <-].
  rewrite (next_rowid_ok _ Hok). split; cbn; [lia|].
  rewrite fmap_app. cbn. intros [H|H]%elem_of_app; [contradiction|].
  apply list_elem_of_singleton in H. lia.
Qed.

Lemma insert_or_replace_retired i k p c u db :
  store_ok db → retired i db →
  retired i (Database.insert_or_replace k p c u db).
Proof.
  intros Hok [Hle Hni]. unfold Database.insert_or_replace.
  rewrite (next_rowid_ok _ Hok). split; cbn; [lia|].
  rewrite fmap_app. cbn. intros [H|H]%elem_of_app.
  - apply Hni. apply list_elem_of_fmap in H as (r & -> & Hr).
    apply list_elem_of_filter in Hr as [_ Hr].
    apply list_elem_of_fmap. eauto.
  - apply list_elem_of_singleton in H. lia.
Qed.

Lemma store_after_retired i db call :
  store_ok db → retired i db → retired i (store_after db call).
Proof.
  intros Hok Hret. destruct call; cbn [store_after].
  - unfold Database.init_database. destruct (bool_decide _); [|exact Hret].
    generalize Database.default_shortcuts. intros l.
    assert (H : ∀ d, store_ok d → retired i d →
              retired i (default d (Database.executemany_insert l d))
              ∧ ∀ d', Database.executemany_insert l d = Some d' →
                      retired i d').
    { induction l as [|[[k p] c] l IH]; intros d Hd Hr; cbn.
      - split; [exact Hr|]. intros d' [= <-]. exact Hr.
      - destruct (Database.insert k p c 0 d) as [d1|] eqn:E; cbn.
        + assert (Hd1 : store_ok d1) by exact (insert_ok _ _ _ _ _ _ Hd E).
          assert (Hr1 : retired i d1)
            by exact (insert_retired _ _ _ _ _ _ _ Hd Hr E).
          destruct (IH d1 Hd1 Hr1) as [_ H2].
          split; [|exact H2].
          destruct (Database.executemany_insert l d1) as [d2|] eqn:E2;
            cbn; [apply H2; reflexivity|exact Hr].
        + split; [exact Hr|discriminate]. }
    apply H; assumption.
  - unfold Database.add_shortcut.
    destruct (Database.insert _ _ _ _ db) as [db'|] eqn:E; [|exact Hret].
    cbn. exact (insert_retired _ _ _ _ _ _ _ Hok Hret E).
  - unfold Database.update_shortcut. destruct (_ && _); [exact Hret|].
    cbn. destruct Hret as [Hle Hni]. split; [exact Hle|]. cbn.
    rewrite <- list_fmap_compose.
    rewrite (list_fmap_ext _ row_id); [exact Hni|].
    intros ? r _. cbn. destruct (bool_decide _); reflexivity.
  - destruct Hret as [Hle Hni]. split; [exact Hle|]. cbn.
    intros H. apply Hni. apply list_elem_of_fmap in H as (r & -> & Hr).
    apply list_elem_of_filter in Hr as [_ Hr]. apply list_elem_of_fmap. eauto.
  - destruct Hret as [Hle Hni]. split; [exact Hle|]. cbn.
    rewrite <- list_fmap_compose.
    rewrite (list_fmap_ext _ row_id); [exact Hni|].
    intros ? r _. cbn. destruct (bool_decide _); reflexivity.
  - unfold Database.import_data. revert db Hok Hret.
    induction data as [|s data IH]; intros db Hok Hret; [exact Hret|].
    cbn. apply IH.
    + apply insert_or_replace_ok, Hok.
    + apply insert_or_replace_retired; assumption.
Qed.

End UpdateDelete.

(** X13. Row ids are never reused.  On a store that keeps its constraints,
    [delete_shortcut] of an id that is not in the table changes nothing;
    after [delete_shortcut] of an id in use, that id is gone for good:
    whatever calls follow, no row ever carries it again, and the keyword of
    the deleted row is no longer in the dictionary handed to the monitor. *)
Theorem deleted_id_never_returns db i calls :
  store_ok db →
  (i ∉ row_id <$> Database.rows db → Database.delete_shortcut i db = db)
  ∧ (∀ r, r ∈ Database.rows db → row_id r = i →
       (i ∉ row_id <$> Database.rows
                         (foldl store_after (Database.delete_shortcut i db)
                            calls))
       ∧ snapshot (Database.delete_shortcut i db)
         = delete (row_keyword r) (snapshot db)).
Proof.
  intros Hok. split; [apply delete_absent|].
  intros r Hr Hi.
  assert (Hok' : store_ok (Database.delete_shortcut i db))
    by (apply delete_ok, Hok).
  split.
  - assert (Hret : retired i (Database.delete_shortcut i db)).
    { destruct Hok as (_ & _ & Hs). rewrite Forall_forall in Hs.
      split; cbn; [rewrite <- Hi; apply Hs, Hr|].
      intros H. apply list_elem_of_fmap in H as (r' & E & Hr').
      apply list_elem_of_filter in Hr' as [Hne _]. congruence. }
    assert (H : ∀ d, store_ok d → retired i d →
                     retired i (foldl store_after d calls)).
    { induction calls as [|c calls IH]; intros d Hd Hrd; [exact Hrd|].
      cbn. apply IH; [apply store_after_ok, Hd|].
      apply store_after_retired; assumption. }
    apply (H _ Hok' Hret).
  - apply map_eq. intros k. apply option_eq. intros p.
    rewrite (snapshot_lookup _ _ _ Hok').
    destruct (decide (k = row_keyword r)) as [->|Hne].
    + rewrite lookup_delete_eq. split; [|discriminate].
      intros (r' & Hr' & Hk & _). cbn in Hr'.
      apply list_elem_of_filter in Hr' as [Hid Hr'].
      exfalso. apply Hid. rewrite <- Hi.
      assert (r' = r); [|congruence].
      destruct Hok as (Hnd & _).
      apply (NoDup_fmap_same row_keyword (Database.rows db)); auto.
    + rewrite lookup_delete_ne by congruence.
      rewrite (snapshot_lookup _ _ _ Hok). split.
      * intros (r' & Hr' & Hk & Hp). cbn in Hr'.
        apply list_elem_of_filter in Hr' as [_ Hr']. eauto.
      * intros (r' & Hr' & Hk & Hp). exists r'. split; [|auto]. cbn.
        apply list_elem_of_filter. split; [|exact Hr'].
        intros E. apply Hne.
        assert (r' = r); [|congruence].
        destruct Hok as (_ & Hnd & _).
        apply (NoDup_fmap_same row_id (Database.rows db)); auto. congruence.
Qed.

Lemma deleted_id_never_returns_witness :
  let db := Database.mk (seeded 1 Database.default_shortcuts) 7 in
  let calls := [CallAdd "new" "phrase" "General"; CallInit;
                CallImport [mkExported "tassist" "x" "y" (Some 3%Z)]] in
  store_ok db
  ∧ mkRow 2 "tassist" "Thank you for your assistance." "Thanks" 0
      ∈ Database.rows db
  ∧ (2 ∉ row_id <$> Database.rows
                      (foldl store_after (Database.delete_shortcut 2 db)
                         calls)).
Proof.
  cbv zeta.
  assert (Hok : store_ok (Database.mk (seeded 1 Database.default_shortcuts) 7)).
  { apply (executemany_insert_ok Database.default_shortcuts Database.empty);
      [exact store_ok_empty|reflexivity]. }
  assert (Hin : mkRow 2 "tassist" "Thank you for your assistance." "Thanks" 0
                ∈ Database.rows
                    (Database.mk (seeded 1 Database.default_shortcuts) 7)).
  { cbn. apply list_elem_of_further, list_elem_of_here. }
  split; [exact Hok|]. split; [exact Hin|].
  exact (proj1 (proj2 (deleted_id_never_returns _ 2
                         [CallAdd "new" "phrase" "General"; CallInit;
                          CallImport [mkExported "tassist" "x" "y" (Some 3%Z)]]
                         Hok) _ Hin eq_refl)).
Defined.

(** X14. [update_shortcut], case by case, on a store that keeps its
    constraints.  An id that is not in the table: nothing changes.  An id in
    the table and the new keyword, lower-cased, carried by another row: the
    call raises.  Otherwise (the row's own keyword is no obstacle) the row
    keeps its id and its usage count, the counter and the other rows are
    untouched, and in the dictionary handed to the monitor the old keyword
    is gone and the new lower-cased keyword is mapped to the new phrase. *)
Theorem update_shortcut_cases db i keyword phrase category :
  store_ok db →
  let k := Py.lower keyword in
  let res := Database.update_shortcut i keyword phrase category db in
  (i ∉ row_id <$> Database.rows db → res = Some db)
  ∧ (∀ r, r ∈ Database.rows db → row_id r = i →
       ((∃ r', r' ∈ Database.rows db ∧ row_id r' ≠ i ∧ row_keyword r' = k) →
        res = None)
       ∧ ((∀ r', r' ∈ Database.rows db → row_id r' ≠ i →
                 row_keyword r' ≠ k) →
          ∃ db',
            res = Some db'
            ∧ mkRow i k phrase category (row_usage r) ∈ Database.rows db'
            ∧ row_id <$> Database.rows db' = row_id <$> Database.rows db
            ∧ Database.seq db' = Database.seq db
            ∧ snapshot db'
              = <[k := phrase]> (delete (row_keyword r) (snapshot db)))).
Proof.
  intros Hok k res. subst res.
  split.
  { intros Hi. unfold Database.update_shortcut.
    rewrite (bool_decide_eq_false_2 _ Hi). cbn.
    rewrite (update_rows_absent _ _ _ Hi). destruct db; reflexivity. }
  intros r Hr Hi.
  assert (Hin : bool_decide (i ∈ row_id <$> Database.rows db) = true).
  { apply bool_decide_eq_true. apply list_elem_of_fmap. eauto. }
  split.
  { intros (r' & Hr' & Hne & Hk). unfold Database.update_shortcut.
    rewrite Hin. cbn.
    assert (Hex : existsb (λ r, bool_decide (row_id r ≠ i
                                              ∧ row_keyword r = Py.lower keyword))
                    (Database.rows db) = true).
    { apply existsb_exists. exists r'. split; [apply list_elem_of_In, Hr'|].
      apply bool_decide_eq_true. auto. }
    rewrite Hex. reflexivity. }
  intros Hfree.
  assert (Hex : existsb (λ r, bool_decide (row_id r ≠ i
                                            ∧ row_keyword r = Py.lower keyword))
                  (Database.rows db) = false).
  { apply not_true_iff_false. intros H. apply existsb_exists in H
      as (r' & Hr' & Hb). apply bool_decide_eq_true in Hb as [Hne Hk].
    apply list_elem_of_In in Hr'. exact (Hfree r' Hr' Hne Hk). }
  set (f := λ r0, if bool_decide (row_id r0 = i)
                  then mkRow (row_id r0) k phrase category (row_usage r0)
                  else r0).
  assert (E : Database.update_shortcut i keyword phrase category db
              = Some (Database.mk (f <$> Database.rows db) (Database.seq db))).
  { unfold Database.update_shortcut. rewrite Hin, Hex. reflexivity. }
  assert (Hok' : store_ok (Database.mk (f <$> Database.rows db)
                             (Database.seq db)))
    by exact (update_ok _ _ _ _ _ _ Hok E).
  assert (Hfr : f r = mkRow i k phrase category (row_usage r)).
  { unfold f. rewrite bool_decide_eq_true_2 by exact Hi. rewrite Hi.
    reflexivity. }
  assert (Hfo : ∀ r0, row_id r0 ≠ i → f r0 = r0).
  { intros r0 H0. unfold f. rewrite bool_decide_eq_false_2 by exact H0.
    reflexivity. }
  assert (Hsame : ∀ r0, r0 ∈ Database.rows db → row_id r0 = i → r0 = r).
  { intros r0 H0 E0. destruct Hok as (_ & Hnd & _).
    apply (NoDup_fmap_same row_id (Database.rows db)); auto. congruence. }
  exists (Database.mk (f <$> Database.rows db) (Database.seq db)).
  split; [exact E|]. split; [|split; [|split]].
  - cbn. rewrite <- Hfr. apply list_elem_of_fmap. eauto.
  - cbn. rewrite <- list_fmap_compose. apply list_fmap_ext.
    intros ? r0 _. cbn. unfold f.
    destruct (bool_decide (row_id r0 = i)); reflexivity.
  - reflexivity.
  - apply map_eq. intros x. apply option_eq. intros p.
    rewrite (snapshot_lookup _ _ _ Hok'). cbn.
    destruct (decide (x = k)) as [->|Hxk].
    + rewrite lookup_insert_eq. split.
      * intros (r1 & Hr1 & Hk1 & Hp1).
        apply list_elem_of_fmap in Hr1 as (r0 & -> & Hr0).
        destruct (decide (row_id r0 = i)) as [E0|E0].
        -- rewrite (Hsame _ Hr0 E0), Hfr in Hp1. cbn in Hp1. congruence.
        -- rewrite (Hfo _ E0) in Hk1. exfalso. exact (Hfree r0 Hr0 E0 Hk1).
      * intros [= <-]. exists (f r). split; [apply list_elem_of_fmap; eauto|].
        rewrite Hfr. auto.
    + rewrite lookup_insert_ne by congruence.
      destruct (decide (x = row_keyword r)) as [->|Hxr].
      * rewrite lookup_delete_eq. split; [|discriminate].
        intros (r1 & Hr1 & Hk1 & Hp1).
        apply list_elem_of_fmap in Hr1 as (r0 & -> & Hr0).
        destruct (decide (row_id r0 = i)) as [E0|E0].
        -- rewrite (Hsame _ Hr0 E0), Hfr in Hk1. cbn in Hk1. congruence.
        -- rewrite (Hfo _ E0) in Hk1. exfalso. apply E0. rewrite <- Hi.
           f_equal. destruct Hok as (Hnd & _).
           apply (NoDup_fmap_same row_keyword (Database.rows db)); auto.
      * rewrite lookup_delete_ne by congruence.
        rewrite (snapshot_lookup _ _ _ Hok). split.
        -- intros (r1 & Hr1 & Hk1 & Hp1).
           apply list_elem_of_fmap in Hr1 as (r0 & -> & Hr0).
           destruct (decide (row_id r0 = i)) as [E0|E0].
           ++ rewrite (Hsame _ Hr0 E0), Hfr in Hk1. cbn in Hk1. congruence.
           ++ rewrite (Hfo _ E0) in Hk1, Hp1. eauto.
        -- intros (r0 & Hr0 & Hk0 & Hp0).
           destruct (decide (row_id r0 = i)) as [E0|E0].
           ++ rewrite (Hsame _ Hr0 E0) in Hk0. congruence.
           ++ exists r0. split; [|auto]. apply list_elem_of_fmap.
              exists r0. split; [symmetry; apply Hfo, E0|exact Hr0].
Qed.

Lemma update_shortcut_cases_witness :
  let db := Database.mk (seeded 1 Database.default_shortcuts) 7 in
  store_ok db
  ∧ Database.update_shortcut 9 "zzz" "p" "c" db = Some db
  ∧ Database.update_shortcut 1 "HELLO" "p" "c" db = None
  ∧ ∃ db', Database.update_shortcut 1 "Tady" "Thanks!" "Thanks" db = Some db'
           ∧ snapshot db' !! "tady" = Some "Thanks!".
Proof.
  cbv zeta.
  assert (Hok : store_ok (Database.mk (seeded 1 Database.default_shortcuts) 7)).
  { apply (executemany_insert_ok Database.default_shortcuts Database.empty);
      [exact store_ok_empty|reflexivity]. }
  split; [exact Hok|].
  split.
  { pose proof (update_shortcut_cases _ 9 "zzz" "p" "c" Hok) as H.
    cbv zeta in H. apply (proj1 H).
    apply (bool_decide_unpack _). vm_compute. exact I. }
  split; [vm_compute; reflexivity|].
  assert (Hin : mkRow 1 "tady" "Thank you very much in advance." "Thanks" 0
                ∈ Database.rows
                    (Database.mk (seeded 1 Database.default_shortcuts) 7))
    by (cbn; apply list_elem_of_here).
  pose proof (update_shortcut_cases _ 1 "Tady" "Thanks!" "Thanks" Hok) as H.
  cbv zeta in H. destruct H as [_ H].
  destruct (H _ Hin eq_refl) as [_ H'].
  destruct H' as (db' & E & _ & _ & _ & Hs).
  { apply (Forall_forall
             (λ r', row_id r' ≠ 1 → row_keyword r' ≠ Py.lower "Tady")).
    apply (bool_decide_unpack _). vm_compute. exact I. }
  exists db'. split; [exact E|]. rewrite Hs. apply lookup_insert_eq.
Defined.

Section UsageFacts.

Implicit Types (db : Database.t) (r : Row).






End UsageFacts.






Section ImportFacts.

Implicit Types (db : Database.t) (r : Row) (s e : Exported).

Global Instance keyword_le_trans : Transitive keyword_le.
Proof. intros r1 r2 r3. unfold keyword_le. apply transitivity. Qed.

Global Instance keyword_le_total : Total keyword_le.
Proof. intros r1 r2. unfold keyword_le. apply total. apply _. Qed.

Lemma get_all_shortcuts_sorted db :
  StronglySorted keyword_le (Database.get_all_shortcuts db).
Proof. apply StronglySorted_merge_sort; apply _. Qed.

Lemma row_content_sorted (l : list Row) :
  StronglySorted keyword_le l →
  StronglySorted exported_le (row_content <$> l).
Proof.
  induction 1 as [|r l _ IH Hr]; cbn; constructor; [exact IH|].
  apply Forall_fmap. eapply Forall_impl; [exact Hr|]. intros r' H. exact H.
Qed.

Lemma row_content_keyword (l : list Row) :
  e_keyword <$> (row_content <$> l) = row_keyword <$> l.
Proof. rewrite <- list_fmap_compose. reflexivity. Qed.

(** Two lists of entries with the same entries, both ordered by keyword,
    no keyword twice: the same list. *)
Lemma exported_sorted_unique (l1 l2 : list Exported) :
  l1 ≡ₚ l2 →
  NoDup (e_keyword <$> l1) →
  StronglySorted exported_le l1 →
  StronglySorted exported_le l2 →
  l1 = l2.
Proof.
  revert l2. induction l1 as [|a l1 IH]; intros l2 Hp Hnd H1 H2.
  - apply Permutation_nil_l in Hp. congruence.
  - destruct l2 as [|b l2]; [apply Permutation_nil_r in Hp; discriminate|].
    apply StronglySorted_inv in H1 as [H1 Ha].
    apply StronglySorted_inv in H2 as [H2 Hb].
    rewrite Forall_forall in Ha, Hb.
    assert (Hnd2 : NoDup (e_keyword <$> b :: l2)) by (rewrite <- Hp; exact Hnd).
    assert (Eab : a = b).
    { assert (Hain : a ∈ b :: l2) by (rewrite <- Hp; apply list_elem_of_here).
      assert (Hbin : b ∈ a :: l1) by (rewrite Hp; apply list_elem_of_here).
      apply elem_of_cons in Hain as [E|Hain]; [exact E|].
      apply elem_of_cons in Hbin as [E|Hbin]; [congruence|].
      assert (Ek : e_keyword a = e_keyword b).
      { apply (anti_symm String.le); [apply (Ha _ Hbin)|apply (Hb _ Hain)]. }
      apply (NoDup_fmap_same e_keyword (b :: l2));
        [exact Hnd2|apply list_elem_of_further, Hain
        |apply list_elem_of_here|exact Ek]. }
    subst b. f_equal. apply IH; [|  |exact H1|exact H2].
    + eapply Permutation_cons_inv. exact Hp.
    + cbn in Hnd. apply NoDup_cons in Hnd as [_ Hnd]. exact Hnd.
Qed.

Lemma filter_row_content k (l : list Row) :
  row_content <$> filter (λ r, row_keyword r ≠ k) l
  = filter (λ e, e_keyword e ≠ k) (row_content <$> l).
Proof.
  induction l as [|r l IH]; [reflexivity|]. rewrite fmap_cons.
  destruct (decide (row_keyword r = k)) as [E|E].
  - rewrite filter_cons_False by (intros H; apply H, E).
    rewrite filter_cons_False by (cbn; intros H; apply H, E). exact IH.
  - rewrite filter_cons_True by exact E.
    rewrite filter_cons_True by (cbn; exact E).
    rewrite fmap_cons, IH. reflexivity.
Qed.

Lemma filter_keep_all k (l : list Exported) :
  k ∉ e_keyword <$> l → filter (λ e, e_keyword e ≠ k) l = l.
Proof.
  induction l as [|e l IH]; intros Hk; [reflexivity|].
  cbn in Hk. apply not_elem_of_cons in Hk as [Hne Hk].
  rewrite filter_cons_True by congruence. rewrite (IH Hk). reflexivity.
Qed.

Lemma import_data_snoc data s db :
  Database.import_data (data ++ [s]) db
  = Database.insert_or_replace (e_keyword s) (e_phrase s) (e_category s)
      (default 0%Z (e_usage_count s)) (Database.import_data data db).
Proof. unfold Database.import_data. rewrite foldl_app. reflexivity. Qed.

Lemma import_data_seq data db :
  Database.seq db ≤ Database.seq (Database.import_data data db).
Proof. apply (store_after_seq db (CallImport data)). Qed.

(** What the table holds after an import without repeated keywords: the
    rows whose keyword is not imported, as they were, then the imported
    entries in their order, each under a row id above the old counter. *)
Lemma import_data_rows data : ∀ db,
  store_ok db →
  NoDup (e_keyword <$> data) →
  ∃ news,
    Database.rows (Database.import_data data db)
    = filter (λ r, row_keyword r ∉ e_keyword <$> data) (Database.rows db)
        ++ news
    ∧ row_content <$> news = with_default_usage <$> data
    ∧ Forall (λ r, Database.seq db < row_id r) news.
Proof.
  induction data as [|s data IH] using rev_ind; intros db Hok Hnd.
  - exists []. cbn [fmap list_fmap]. rewrite app_nil_r.
    split; [|split; [reflexivity|constructor]].
    unfold Database.import_data. cbn [foldl].
    generalize (Database.rows db). intros l.
    induction l as [|r l IHl]; [reflexivity|].
    rewrite filter_cons_True by apply not_elem_of_nil.
    rewrite <- IHl. reflexivity.
  - rewrite fmap_app in Hnd. cbn in Hnd.
    apply NoDup_app in Hnd as (Hnd & Hdis & _).
    assert (Hs : e_keyword s ∉ e_keyword <$> data).
    { intros H. apply (Hdis _ H). apply list_elem_of_here. }
    destruct (IH db Hok Hnd) as (news & Er & Ec & Hn).
    assert (Hok1 : store_ok (Database.import_data data db))
      by (apply import_data_ok, Hok).
    rewrite import_data_snoc. unfold Database.insert_or_replace.
    rewrite (next_rowid_ok _ Hok1). cbn [Database.rows].
    set (new := mkRow (S (Database.seq (Database.import_data data db)))
                  (e_keyword s) (e_phrase s) (e_category s)
                  (default 0%Z (e_usage_count s))).
    exists (news ++ [new]).
    assert (Hnews : filter (λ r, row_keyword r ≠ e_keyword s) news = news).
    { apply (f_equal (fmap e_keyword)) in Ec.
      rewrite row_content_keyword in Ec.
      assert (Hk : e_keyword s ∉ row_keyword <$> news).
      { rewrite Ec. rewrite <- list_fmap_compose. exact Hs. }
      clear -Hk. induction news as [|r l IH]; [reflexivity|].
      cbn in Hk. apply not_elem_of_cons in Hk as [Hne Hk].
      rewrite filter_cons_True by congruence. rewrite (IH Hk). reflexivity. }
    split; [|split].
    + rewrite Er, filter_app, Hnews, <- app_assoc. f_equal.
      rewrite list_filter_filter. apply list_filter_iff. intros r.
      rewrite fmap_app. cbn. rewrite elem_of_app, list_elem_of_singleton.
      split.
      * intros [H1 H2] [H|H]; [contradiction|congruence].
      * intros H. split; [intros E|intros Hin]; apply H; auto.
    + rewrite !fmap_app, Ec. reflexivity.
    + apply Forall_app. split; [exact Hn|].
      constructor; [|constructor]. cbn.
      pose proof (import_data_seq data db). lia.
Qed.

End ImportFacts.

Lemma export_data_keywords db :
  e_keyword <$> Database.export_data db
  = row_keyword <$> Database.get_all_shortcuts db.
Proof.
  unfold Database.export_data. rewrite <- list_fmap_compose. reflexivity.
Qed.

Lemma export_data_content db :
  Database.export_data db = row_content <$> Database.get_all_shortcuts db.
Proof. reflexivity. Qed.

Lemma filter_none {A} (P : A → Prop) `{!∀ x, Decision (P x)} (l : list A) :
  (∀ x, x ∈ l → ¬ P x) → filter P l = [].
Proof.
  induction l as [|a l IH]; intros Hall; [reflexivity|].
  rewrite filter_cons_False by (apply Hall, list_elem_of_here).
  apply IH. intros x Hx. apply Hall, list_elem_of_further, Hx.
Qed.

(** X17. Export, then import.  Let [db] and [other] be stores that keep
    their constraints, every keyword of [other] being a keyword of [db]
    ([other] may be [db] itself, or an empty table).  After importing into
    [other] what [db] exports, [other] exports exactly what [db] exports
    (same keywords, phrases, categories and usage counts, in the same
    order) and yields the same dictionary for the monitor; but every row
    carries a new row id, above the counter that [other] had. *)
Theorem export_import_round_trip db other :
  store_ok db →
  store_ok other →
  (∀ r, r ∈ Database.rows other →
        row_keyword r ∈ row_keyword <$> Database.rows db) →
  let db' := Database.import_data (Database.export_data db) other in
  Database.export_data db' = Database.export_data db
  ∧ snapshot db' = snapshot db
  ∧ Forall (λ r, Database.seq other < row_id r) (Database.rows db')
  ∧ length (Database.rows db') = length (Database.rows db).
Proof.
  intros Hok Hoth Hsub db'.
  assert (Hkeys : e_keyword <$> Database.export_data db
                  ≡ₚ row_keyword <$> Database.rows db).
  { rewrite export_data_keywords, get_all_shortcuts_perm. reflexivity. }
  assert (Hnd : NoDup (e_keyword <$> Database.export_data db)).
  { rewrite Hkeys. apply Hok. }
  destruct (import_data_rows _ other Hoth Hnd) as (news & Er & Ec & Hn).
  fold db' in Er.
  rewrite filter_none in Er.
  2:{ intros r Hr Hnot. apply Hnot. rewrite Hkeys. apply Hsub, Hr. }
  cbn [app] in Er.
  assert (Ec' : row_content <$> news = Database.export_data db).
  { rewrite Ec, export_data_content, <- list_fmap_compose.
    apply list_fmap_ext. intros ? r _. reflexivity. }
  assert (Hok' : store_ok db') by (apply import_data_ok, Hoth).
  assert (Hexp : Database.export_data db' = Database.export_data db).
  { apply exported_sorted_unique.
    - rewrite export_data_content, get_all_shortcuts_perm, Er, Ec'.
      reflexivity.
    - rewrite export_data_keywords, get_all_shortcuts_perm. apply Hok'.
    - apply row_content_sorted, get_all_shortcuts_sorted.
    - apply row_content_sorted, get_all_shortcuts_sorted. }
  split; [exact Hexp|]. split; [|split].
  - apply map_eq. intros k. apply option_eq. intros p.
    rewrite (snapshot_lookup _ _ _ Hok'), (snapshot_lookup _ _ _ Hok).
    assert (Hiff : ∀ l1 l2 : list Row,
              row_content <$> l1 ≡ₚ row_content <$> l2 →
              (∃ r, r ∈ l1 ∧ row_keyword r = k ∧ row_phrase r = p) →
              ∃ r, r ∈ l2 ∧ row_keyword r = k ∧ row_phrase r = p).
    { intros l1 l2 Hp (r & Hr & Hk & Hph).
      assert (Hin : row_content r ∈ row_content <$> l2).
      { rewrite <- Hp. apply list_elem_of_fmap. eauto. }
      apply list_elem_of_fmap in Hin as (r2 & E & Hr2).
      exists r2. split; [exact Hr2|].
      injection E as E1 E2 _ _. split; congruence. }
    assert (Hp : row_content <$> Database.rows db'
                 ≡ₚ row_content <$> Database.rows db).
    { rewrite Er, Ec', export_data_content, get_all_shortcuts_perm.
      reflexivity. }
    split; apply Hiff; [exact Hp|symmetry; exact Hp].
  - rewrite Er. exact Hn.
  - rewrite Er. rewrite <- (length_fmap row_content news), Ec'.
    rewrite export_data_content, length_fmap.
    apply Permutation_length, get_all_shortcuts_perm.
Qed.

Lemma export_import_round_trip_witness :
  let db := Database.mk (seeded 1 Database.default_shortcuts) 7 in
  let db' := Database.import_data (Database.export_data db) db in
  store_ok db
  ∧ (∀ r, r ∈ Database.rows db →
          row_keyword r ∈ row_keyword <$> Database.rows db)
  ∧ Database.export_data db' = Database.export_data db
  ∧ row_id <$> Database.rows db' = [8; 9; 10; 11; 12; 13; 14].
Proof.
  cbv zeta.
  assert (Hok : store_ok (Database.mk (seeded 1 Database.default_shortcuts) 7)).
  { apply (executemany_insert_ok Database.default_shortcuts Database.empty);
      [exact store_ok_empty|reflexivity]. }
  assert (Hsub : ∀ r,
            r ∈ Database.rows
                  (Database.mk (seeded 1 Database.default_shortcuts) 7) →
            row_keyword r
            ∈ row_keyword
                <$> Database.rows
                      (Database.mk (seeded 1 Database.default_shortcuts) 7)).
  { intros r Hr. apply list_elem_of_fmap. eauto. }
  destruct (export_import_round_trip _ _ Hok Hok Hsub) as (E & _).
  refine (conj Hok (conj Hsub (conj E _))).
  vm_compute. reflexivity.
Defined.

Section KeysLower.

Implicit Types (db : Database.t) (r : Row).

Lemma keys_lower_snoc db r n :
  keys_lower db → Py.lower (row_keyword r) = row_keyword r →
  keys_lower (Database.mk (Database.rows db ++ [r]) n).
Proof.
  intros H Hr. unfold keys_lower. cbn. apply Forall_app. split; [exact H|].
  constructor; [exact Hr|constructor].
Qed.

Lemma insert_lower k p c u db db' :
  keys_lower db → Py.lower k = k →
  Database.insert k p c u db = Some db' → keys_lower db'.
Proof.
  intros H Hk. unfold Database.insert.
  destruct (Database.has_keyword k db); [discriminate|]. intros [= <-].
  apply keys_lower_snoc; assumption.
Qed.

Lemma insert_or_replace_lower k p c u db :
  keys_lower db → Py.lower k = k →
  keys_lower (Database.insert_or_replace k p c u db).
Proof.
  intros H Hk. unfold Database.insert_or_replace, keys_lower. cbn.
  apply Forall_app. split; [|constructor; [exact Hk|constructor]].
  unfold keys_lower in H. rewrite Forall_forall in H |- *.
  intros r Hr. apply list_elem_of_filter in Hr as [_ Hr]. apply H, Hr.
Qed.

Lemma executemany_insert_lower l : ∀ db db',
  keys_lower db → Forall (λ x, Py.lower x.1.1 = x.1.1) l →
  Database.executemany_insert l db = Some db' → keys_lower db'.
Proof.
  induction l as [|[[k p] c] l IH]; intros db db' H Hl; cbn.
  - intros [= <-]. exact H.
  - apply Forall_cons in Hl as [Hk Hl]. cbn in Hk.
    destruct (Database.insert k p c 0 db) as [db1|] eqn:E; cbn;
      [|discriminate].
    apply IH; [|exact Hl]. exact (insert_lower _ _ _ _ _ _ H Hk E).
Qed.

End KeysLower.

(** X18. Stored keywords stay lower-case.  If every keyword of the store is
    lower-case, it is still so after [init_database], [add_shortcut],
    [update_shortcut], [delete_shortcut] and [increment_usage], whatever
    their arguments, and after [import_data] of entries whose keywords are
    lower-case: [add_shortcut] and [update_shortcut] lower-case the keyword
    they store, [import_data] stores it as it is. *)
Theorem stored_keywords_stay_lower db call :
  keys_lower db →
  (∀ data, call = CallImport data →
           Forall (λ s, Py.lower (e_keyword s) = e_keyword s) data) →
  keys_lower (store_after db call).
Proof.
  intros H Himp. destruct call; cbn [store_after].
  - unfold Database.init_database. destruct (bool_decide _); [|exact H].
    destruct (Database.executemany_insert _ db) as [db'|] eqn:E; [|exact H].
    cbn. apply (executemany_insert_lower _ _ _ H) in E; [exact E|].
    apply (bool_decide_unpack _). vm_compute. exact I.
  - unfold Database.add_shortcut.
    destruct (Database.insert _ _ _ _ db) as [db'|] eqn:E; [|exact H].
    cbn. exact (insert_lower _ _ _ _ _ _ H (lower_idem _) E).
  - unfold Database.update_shortcut. destruct (_ && _); [exact H|].
    cbn. unfold keys_lower in *. cbn. apply Forall_fmap.
    eapply Forall_impl; [exact H|]. intros r Hr. cbn.
    destruct (bool_decide (row_id r = shortcut_id)); [apply lower_idem|exact Hr].
  - unfold keys_lower in *. cbn. rewrite Forall_forall in H |- *.
    intros r Hr. apply list_elem_of_filter in Hr as [_ Hr]. apply H, Hr.
  - unfold keys_lower in *. cbn. apply Forall_fmap.
    eapply Forall_impl; [exact H|]. intros r Hr. cbn.
    destruct (bool_decide _); exact Hr.
  - specialize (Himp data eq_refl). unfold Database.import_data.
    revert db H. induction Himp as [|s data Hs _ IH]; intros db H; [exact H|].
    cbn. apply IH, insert_or_replace_lower; assumption.
Qed.

Lemma stored_keywords_stay_lower_witness :
  let db := Database.mk (seeded 1 Database.default_shortcuts) 7 in
  keys_lower db
  ∧ keys_lower (store_after db (CallAdd "BRB" "be right back" "Chat"))
  ∧ keys_lower (store_after db (CallUpdate 1 "TaDy" "thanks" "Thanks")).
Proof.
  cbv zeta.
  assert (H : keys_lower (Database.mk (seeded 1 Database.default_shortcuts) 7)).
  { apply (bool_decide_unpack _). vm_compute. exact I. }
  split; [exact H|]. split; apply stored_keywords_stay_lower;
    try exact H; intros data [=].
Defined.



Section DialogFacts.




End DialogFacts.




